(** * HEMS task allocation tester: first-fit, next-fit and best-fit

    A shallow embedding of [tools/task_allocation_tester/task_allocation_tester.py]:
    the [task] class, the three allocation heuristics [first_fit], [next_fit]
    and [best_fit], the three sort keys and the efficacy expression of the
    evaluation loop.

    Numbers.  The step function holds Python ints; the widths and heights
    produced by [generate_task] are integer-valued ([np.round]).  All of them
    are modelled as [Z], on which the comparisons and the arithmetic of the
    source are exact.  Where the type of a number decides what the code does
    (the division of the efficacy expression), the numbers carry their type;
    a finite quotient is an exact rational.

    Exceptions.  A Python exception is a [Raise] in the [result] monad. *)

From Stdlib Require Import ZArith QArith Qround Lia String Ascii DecimalString.
From stdpp Require Import base option list sorting.

Open Scope Z_scope.

(** ** The error monad *)

Inductive exn : Set := IndexError | ZeroDivisionError.

Inductive result (A : Type) : Type :=
  | Ok (a : A)
  | Raise (e : exn).
Arguments Ok {A} a.
Arguments Raise {A} e.

#[global] Instance result_ret : MRet result := fun A a => Ok a.
#[global] Instance result_bind : MBind result := fun A B f m =>
  match m with
  | Ok a => f a
  | Raise e => Raise e
  end.

(** ** Python lists of ints *)

(** [l[i]] for a list of length [n]: a negative index counts from the end,
    anything outside [-n .. n-1] raises. *)
Definition py_index (n : nat) (i : Z) : result nat :=
  if (0 <=? i) && (i <? Z.of_nat n) then Ok (Z.to_nat i)
  else if (- Z.of_nat n <=? i) && (i <? 0) then Ok (Z.to_nat (Z.of_nat n + i))
  else Raise IndexError.

(** [step_function[t] -= h] *)
Definition isub_item (step_function : list Z) (t h : Z) : result (list Z) :=
  i ← py_index (length step_function) t;
  match step_function !! i with
  | Some v => Ok (<[i := v - h]> step_function)
  | None => Raise IndexError
  end.

(** [for t in range(t, t + n): step_function[t] -= h] *)
Fixpoint isub_range (n : nat) (t h : Z) (step_function : list Z) : result (list Z) :=
  match n with
  | O => Ok step_function
  | S n' => step_function' ← isub_item step_function t h;
            isub_range n' (t + 1) h step_function'
  end.

(** [for t in range(t1, t2+1): step_function[t] -= h] *)
Definition subtract_window (step_function : list Z) (t1 t2 h : Z) : result (list Z) :=
  isub_range (Z.to_nat (t2 + 1 - t1)) t1 h step_function.

(** [l[i:]] and [l[:i]] *)
Definition py_slice_bound (n : nat) (i : Z) : nat :=
  if i <? 0 then Z.to_nat (Z.max 0 (Z.of_nat n + i)) else Z.to_nat (Z.min i (Z.of_nat n)).

Definition py_slice_from (l : list Z) (i : Z) : list Z := drop (py_slice_bound (length l) i) l.
Definition py_slice_to (l : list Z) (i : Z) : list Z := take (py_slice_bound (length l) i) l.

(** [sum(l)] *)
Definition py_sum (l : list Z) : Z := fold_left Z.add l 0.

(** ** Tasks *)

Record task : Set := mk_task {
  width : Z;
  height : Z;
  start_time : Z;
  end_time : Z
}.

(** [task.__init__] *)
Definition new_task (w h : Z) : task := mk_task w h (-1) (-1).

(** [tasks[i].start_time = s; tasks[i].end_time = e] *)
Definition set_times (x : task) (s e : Z) : task :=
  mk_task (width x) (height x) s e.

(** ** Sort keys and [list.sort(key=...)] *)

Definition sort_by_width (x : task) : Z := width x.
Definition sort_by_height (x : task) : Z := height x.
Definition sort_by_area (x : task) : Z := width x * height x.

(** [list.sort] is a stable ascending sort; the result of a stable sort is
    determined by the keys and the input order, and is the one stable
    insertion computes. *)
Fixpoint insert_by_key (key : task -> Z) (x : task) (l : list task) : list task :=
  match l with
  | [] => [x]
  | y :: l' => if key x <=? key y then x :: y :: l' else y :: insert_by_key key x l'
  end.

Definition list_sort (key : task -> Z) (l : list task) : list task :=
  foldr (insert_by_key key) [] l.

(** ** first_fit *)

(** The inner loop of [first_fit], from slot [t] on, [l] being the slots not
    yet visited.  The result is [(t1, t2)] when the loop ends. *)
Fixpoint first_fit_scan (h w : Z) (l : list Z) (t t1 t2 : Z) : Z * Z :=
  match l with
  | [] => (t1, t2)
  | step :: l' =>
      if step <? h then first_fit_scan h w l' (t + 1) (-1) t2
      else
        let t1 := if t1 =? -1 then t else t1 in
        if t - t1 =? w - 1 then (t1, t)
        else first_fit_scan h w l' (t + 1) t1 t2
  end.

(** The body of the loop over the tasks. *)
Definition first_fit_task (x : task) (step_function : list Z) : result (task * list Z) :=
  let '(t1, t2) := first_fit_scan (height x) (width x) step_function 0 (-1) (-1) in
  if negb (t1 =? -1) && negb (t2 =? -1) then
    step_function' ← subtract_window step_function t1 t2 (height x);
    Ok (set_times x t1 t2, step_function')
  else Ok (x, step_function).

Fixpoint first_fit (tasks : list task) (step_function : list Z) : result (list task * list Z) :=
  match tasks with
  | [] => Ok ([], step_function)
  | x :: rest =>
      '(x', step_function') ← first_fit_task x step_function;
      '(rest', step_function'') ← first_fit rest step_function';
      Ok (x' :: rest', step_function'')
  end.

(** ** next_fit *)

(** Both inner loops of [next_fit] have this body; [t] counts from 0 within
    the slice that is enumerated. *)
Fixpoint next_fit_scan (h w : Z) (l : list Z) (t t1 t2 : Z) : Z * Z :=
  match l with
  | [] => (t1, t2)
  | step :: l' =>
      if step <? h then next_fit_scan h w l' (t + 1) (-1) t2
      else
        let t1 := if t1 =? -1 then t else t1 in
        if t - t1 =? w - 1 then (t1, t)
        else next_fit_scan h w l' (t + 1) t1 t2
  end.

(** The body of the loop over the tasks.  [it_begin_prev] is the value the
    variable [it_begin] holds when the iteration starts (what the previous
    iteration left in it); the first statement of the body overwrites it.
    The value returned with the task and the profile is the one the last
    statement of the body leaves in [it_begin]. *)
Definition next_fit_task (x : task) (step_function : list Z) (it_begin_prev : Z)
  : result (task * list Z * Z) :=
  let it_begin := 0 in
  let '(t1, t2) :=
    next_fit_scan (height x) (width x) (py_slice_from step_function it_begin) 0 (-1) (-1) in
  let '(t1, t2) :=
    if (t1 =? -1) || (t2 =? -1)
    then next_fit_scan (height x) (width x) (py_slice_to step_function it_begin) 0 t1 t2
    else (t1, t2) in
  '(x', step_function') ←
    (if negb (t1 =? -1) && negb (t2 =? -1) then
       step_function' ← subtract_window step_function t1 t2 (height x);
       Ok (set_times x t1 t2, step_function')
     else Ok (x, step_function));
  let it_begin := if t2 =? Z.of_nat (length step_function') then 0 else t2 + 1 in
  Ok (x', step_function', it_begin).

Fixpoint next_fit_loop (tasks : list task) (step_function : list Z) (it_begin : Z)
  : result (list task * list Z) :=
  match tasks with
  | [] => Ok ([], step_function)
  | x :: rest =>
      '(x', step_function', it_begin') ← next_fit_task x step_function it_begin;
      '(rest', step_function'') ← next_fit_loop rest step_function' it_begin';
      Ok (x' :: rest', step_function'')
  end.

(** [it_begin] is unbound before the first iteration; any initial value does,
    0 is the one the body assigns. *)
Definition next_fit (tasks : list task) (step_function : list Z) : result (list task * list Z) :=
  next_fit_loop tasks step_function 0.

(** ** best_fit *)

(** The inner loop of [best_fit]; the result is [(t1, t2, best_pos)]. *)
Fixpoint best_fit_scan (h w : Z) (l : list Z) (t t1 t2 cur_area max_area best_pos : Z)
  : Z * Z * Z :=
  match l with
  | [] => (t1, t2, best_pos)
  | step :: l' =>
      if step <? h then best_fit_scan h w l' (t + 1) (-1) t2 0 max_area best_pos
      else
        let cur_area := if t1 =? -1 then cur_area + (step - h) else cur_area in
        let t1 := if t1 =? -1 then t else t1 in
        if t - t1 <? w - 1 then
          best_fit_scan h w l' (t + 1) t1 t2 (cur_area + (step - h)) max_area best_pos
        else if t - t1 =? w - 1 then
          let cur_area := cur_area + (step - h) in
          let best_pos := if max_area <? cur_area then t1 else best_pos in
          (t1, t, best_pos)
        else best_fit_scan h w l' (t + 1) t1 t2 cur_area max_area best_pos
  end.

Definition best_fit_task (x : task) (step_function : list Z) : result (task * list Z) :=
  let '(t1, t2, best_pos) :=
    best_fit_scan (height x) (width x) step_function 0 (-1) (-1) 0 0 (-1) in
  if negb (t1 =? -1) && negb (t2 =? -1) then
    step_function' ← subtract_window step_function t1 t2 (height x);
    Ok (set_times x best_pos (best_pos + width x - 1), step_function')
  else Ok (x, step_function).

Fixpoint best_fit (tasks : list task) (step_function : list Z) : result (list task * list Z) :=
  match tasks with
  | [] => Ok ([], step_function)
  | x :: rest =>
      '(x', step_function') ← best_fit_task x step_function;
      '(rest', step_function'') ← best_fit rest step_function';
      Ok (x' :: rest', step_function'')
  end.

(** ** The evaluation loop *)

Inductive order : Set := OrderWidth | OrderHeight | OrderArea.
Inductive heuristic : Set := FirstFit | NextFit | BestFit.

Definition sort_key (o : order) : task -> Z :=
  match o with
  | OrderWidth => sort_by_width
  | OrderHeight => sort_by_height
  | OrderArea => sort_by_area
  end.

(** [tasks.sort(key=sort_by_...)] *)
Definition sort_tasks (o : order) (tasks : list task) : list task :=
  list_sort (sort_key o) tasks.

Definition allocate (hr : heuristic) : list task -> list Z -> result (list task * list Z) :=
  match hr with
  | FirstFit => first_fit
  | NextFit => next_fit
  | BestFit => best_fit
  end.

(** [total_area = 0; for x in tasks: total_area += x.width * x.height] *)
Definition total_area (tasks : list task) : Z :=
  fold_left (fun acc x => acc + width x * height x) tasks 0.

(** [min(a, b)] *)
Definition py_min (a b : Z) : Z := if b <? a then b else a.

(** ** The numbers of the evaluation loop *)

(** In the evaluation loop the slots of the step function are Python ints
    ([round(y)] and [0]) and the widths and heights of the tasks are
    [np.float64] values ([np.round]).  An operation with an [np.float64]
    operand is NumPy's and yields an [np.float64]; an operation on two ints
    is Python's.  A number is its type together with its value, which is an
    integer throughout. *)
Inductive number : Set :=
  | PyInt (n : Z)
  | NpFloat (n : Z).

Definition num_value (a : number) : Z :=
  match a with
  | PyInt n => n
  | NpFloat n => n
  end.

(** [a + b] *)
Definition num_add (a b : number) : number :=
  match a, b with
  | PyInt x, PyInt y => PyInt (x + y)
  | _, _ => NpFloat (num_value a + num_value b)
  end.

(** [a - b] *)
Definition num_sub (a b : number) : number :=
  match a, b with
  | PyInt x, PyInt y => PyInt (x - y)
  | _, _ => NpFloat (num_value a - num_value b)
  end.

(** [min(a, b)]: [b] when [b < a], and [a] otherwise. *)
Definition num_min (a b : number) : number :=
  if num_value b <? num_value a then b else a.

(** [sum(l)], which starts from the int 0. *)
Definition num_sum (l : list number) : number := fold_left num_add l (PyInt 0).

(** What a division yields: a quotient, or NumPy's nan or one of its
    infinities. *)
Inductive quotient : Set :=
  | Finite (q : Q)
  | NaN
  | Inf (negative : bool).

(** [a / b].  Python raises when an int is divided by the int 0.  With an
    [np.float64] operand the division is NumPy's, which warns and raises
    nothing: 0 divided by 0 is nan, anything else divided by 0 an infinity
    with the sign of the dividend (the zero divisors of the loop are
    positive zeros). *)
Definition py_truediv (a b : number) : result quotient :=
  match a, b with
  | PyInt x, PyInt y =>
      if y =? 0 then Raise ZeroDivisionError
      else Ok (Finite (inject_Z x / inject_Z y))
  | _, _ =>
      if num_value b =? 0 then
        if num_value a =? 0 then Ok NaN else Ok (Inf (num_value a <? 0))
      else Ok (Finite (inject_Z (num_value a) / inject_Z (num_value b)))
  end.

(** [(original_energy - remaining_energy) / min(total_area, original_energy)] *)
Definition efficacy (original_energy remaining_energy total_area : number)
  : result quotient :=
  py_truediv (num_sub original_energy remaining_energy)
             (num_min total_area original_energy).

(** [total_area = 0; for x in tasks: total_area += x.width * x.height], with
    its type: an int before the first task, an [np.float64] from then on. *)
Definition total_area_number (tasks : list task) : number :=
  fold_left (fun acc x => num_add acc (NpFloat (width x * height x))) tasks (PyInt 0).

(** ** The heuristics on a step function of typed slots *)

(** The heuristics as the evaluation loop runs them: the scans compare the
    values of the slots, and [step_function[t] -= x.height] leaves an
    [np.float64] in the slot, the height being one. *)
Definition isub_item_np (step_function : list number) (t h : Z) : result (list number) :=
  i ← py_index (length step_function) t;
  match step_function !! i with
  | Some v => Ok (<[i := num_sub v (NpFloat h)]> step_function)
  | None => Raise IndexError
  end.

Fixpoint isub_range_np (n : nat) (t h : Z) (step_function : list number)
  : result (list number) :=
  match n with
  | O => Ok step_function
  | S n' => step_function' ← isub_item_np step_function t h;
            isub_range_np n' (t + 1) h step_function'
  end.

Definition subtract_window_np (step_function : list number) (t1 t2 h : Z)
  : result (list number) :=
  isub_range_np (Z.to_nat (t2 + 1 - t1)) t1 h step_function.

Definition first_fit_task_np (x : task) (step_function : list number)
  : result (task * list number) :=
  let '(t1, t2) :=
    first_fit_scan (height x) (width x) (num_value <$> step_function) 0 (-1) (-1) in
  if negb (t1 =? -1) && negb (t2 =? -1) then
    step_function' ← subtract_window_np step_function t1 t2 (height x);
    Ok (set_times x t1 t2, step_function')
  else Ok (x, step_function).

Fixpoint first_fit_np (tasks : list task) (step_function : list number)
  : result (list task * list number) :=
  match tasks with
  | [] => Ok ([], step_function)
  | x :: rest =>
      '(x', step_function') ← first_fit_task_np x step_function;
      '(rest', step_function'') ← first_fit_np rest step_function';
      Ok (x' :: rest', step_function'')
  end.

Definition next_fit_task_np (x : task) (step_function : list number) (it_begin_prev : Z)
  : result (task * list number * Z) :=
  let it_begin := 0 in
  let values := num_value <$> step_function in
  let '(t1, t2) :=
    next_fit_scan (height x) (width x) (py_slice_from values it_begin) 0 (-1) (-1) in
  let '(t1, t2) :=
    if (t1 =? -1) || (t2 =? -1)
    then next_fit_scan (height x) (width x) (py_slice_to values it_begin) 0 t1 t2
    else (t1, t2) in
  '(x', step_function') ←
    (if negb (t1 =? -1) && negb (t2 =? -1) then
       step_function' ← subtract_window_np step_function t1 t2 (height x);
       Ok (set_times x t1 t2, step_function')
     else Ok (x, step_function));
  let it_begin := if t2 =? Z.of_nat (length step_function') then 0 else t2 + 1 in
  Ok (x', step_function', it_begin).

Fixpoint next_fit_np_loop (tasks : list task) (step_function : list number) (it_begin : Z)
  : result (list task * list number) :=
  match tasks with
  | [] => Ok ([], step_function)
  | x :: rest =>
      '(x', step_function', it_begin') ← next_fit_task_np x step_function it_begin;
      '(rest', step_function'') ← next_fit_np_loop rest step_function' it_begin';
      Ok (x' :: rest', step_function'')
  end.

Definition next_fit_np (tasks : list task) (step_function : list number)
  : result (list task * list number) :=
  next_fit_np_loop tasks step_function 0.

Definition best_fit_task_np (x : task) (step_function : list number)
  : result (task * list number) :=
  let '(t1, t2, best_pos) :=
    best_fit_scan (height x) (width x) (num_value <$> step_function) 0 (-1) (-1) 0 0 (-1) in
  if negb (t1 =? -1) && negb (t2 =? -1) then
    step_function' ← subtract_window_np step_function t1 t2 (height x);
    Ok (set_times x best_pos (best_pos + width x - 1), step_function')
  else Ok (x, step_function).

Fixpoint best_fit_np (tasks : list task) (step_function : list number)
  : result (list task * list number) :=
  match tasks with
  | [] => Ok ([], step_function)
  | x :: rest =>
      '(x', step_function') ← best_fit_task_np x step_function;
      '(rest', step_function'') ← best_fit_np rest step_function';
      Ok (x' :: rest', step_function'')
  end.

Definition allocate_np (hr : heuristic)
  : list task -> list number -> result (list task * list number) :=
  match hr with
  | FirstFit => first_fit_np
  | NextFit => next_fit_np
  | BestFit => best_fit_np
  end.

(** One trial of the evaluation loop, from the sampled step function (of
    ints) and the sampled tasks (of [np.float64] widths and heights) on. *)
Definition trial (o : order) (hr : heuristic) (step_function : list Z) (tasks : list task)
  : result quotient :=
  let step_function := PyInt <$> step_function in
  let original_energy := num_sum step_function in
  let area := total_area_number tasks in
  let tasks := sort_tasks o tasks in
  '(_, step_function) ← allocate_np hr tasks step_function;
  let remaining_energy := num_sum step_function in
  efficacy original_energy remaining_energy area.

(** ** The generators *)

(** The values the generators sample are floats, that is, dyadic rationals;
    they are modelled as elements of [Q].  [normal n] is the value the [n]-th
    call of [np.random.normal] returns: the mean and the deviation passed to
    it (and with them the daily peak drawn by [random.randrange]) only decide
    which value that is, and every statement below holds for every source. *)

(** [round(y)] and [np.round(y)]: the nearest integer, a tie going to the
    even one. *)
Definition py_round (y : Q) : Z :=
  let f := Qfloor y in
  match (y - inject_Z f ?= 1 # 2)%Q with
  | Lt => f
  | Gt => f + 1
  | Eq => if Z.even f then f else f + 1
  end.

(** [y > 0] *)
Definition py_positive (y : Q) : bool := negb (Qle_bool y 0).

(** The branches on the hour [t] in [generate_step_function]: the new value
    of [y] and the number of samples drawn so far. *)
Definition hour_sample (normal : nat -> Q) (t : nat) (y : Q) (k : nat) : Q * nat :=
  if ((t <? 8) || (21 <=? t))%nat then (0%Q, k)
  else if ((8 <=? t) && (t <? 14))%nat then (normal k, S k)
  else if ((14 <=? t) && (t <? 21))%nat then (normal k, S k)
  else (y, k).

(** [for t in range(24): ...; energy_day += [round(y) if y > 0 else 0]] *)
Fixpoint day_loop (normal : nat -> Q) (hours : list nat) (y : Q) (k : nat)
    (energy_day : list Z) : list Z * Q * nat :=
  match hours with
  | [] => (energy_day, y, k)
  | t :: hours' =>
      let '(y, k) := hour_sample normal t y k in
      day_loop normal hours' y k
        (energy_day ++ [if py_positive y then py_round y else 0])
  end.

(** [for day in range(7): ...] *)
Fixpoint week_loop (normal : nat -> Q) (days : list nat) (y : Q) (k : nat)
    (energy_weekly : list Z) (energy_daily : list (list Z))
  : list Z * list (list Z) * nat :=
  match days with
  | [] => (energy_weekly, energy_daily, k)
  | _ :: days' =>
      let '(energy_day, y, k) := day_loop normal (seq 0 24) y k [] in
      week_loop normal days' y k (energy_weekly ++ energy_day)
        (energy_daily ++ [energy_day])
  end.

(** [generate_step_function()], with the number [k] of samples drawn before
    the call; the result is [(energy_weekly, energy_daily)] and the number of
    samples drawn after it. *)
Definition generate_step_function (normal : nat -> Q) (k : nat)
  : list Z * list (list Z) * nat :=
  week_loop normal (seq 0 7) 0%Q k [] [].

(** [while True: v = np.random.normal(..); if v >= 0.5: v = np.round(v); break]
    with at most [fuel] turns of the loop; [None] when they do not suffice. *)
Fixpoint sample_rounded (normal : nat -> Q) (fuel : nat) (k : nat) : option (Z * nat) :=
  match fuel with
  | O => None
  | S fuel' =>
      let v := normal k in
      if Qle_bool (1 # 2) v then Some (py_round v, S k)
      else sample_rounded normal fuel' (S k)
  end.

(** [generate_task(num_tasks, mean_height, sigma_height)] *)
Fixpoint generate_task (normal : nat -> Q) (fuel : nat) (num_tasks : nat) (k : nat)
  : option (list task * nat) :=
  match num_tasks with
  | O => Some ([], k)
  | S n =>
      '(w, k) ← sample_rounded normal fuel k;
      '(h, k) ← sample_rounded normal fuel k;
      '(tasks, k) ← generate_task normal fuel n k;
      Some (new_task w h :: tasks, k)
  end.

(** One turn of the innermost evaluation loop: the step function and the
    20 tasks are sampled, then the trial is run on them.  [None] when the
    sampling loops of [generate_task] do not end within [fuel] turns. *)
Definition generated_trial (normal : nat -> Q) (fuel : nat) (k : nat)
    (o : order) (hr : heuristic) : option (result quotient) :=
  let '(step_function, _, k) := generate_step_function normal k in
  '(tasks, _) ← generate_task normal fuel 20 k;
  Some (trial o hr step_function tasks).

(** ** Writing the step function to a file *)

(** [str(n)] for an int: the decimal digits, with a minus sign before them
    when [n] is negative. *)
Definition py_str_int (n : Z) : string := NilZero.string_of_int (Z.to_int n).

(** [str(l)] for a list of ints. *)
Definition py_str_list (l : list Z) : string :=
  ("[" ++ String.concat ", " (py_str_int <$> l) ++ "]")%string.

(** [s.replace(old, new)] for a non-empty [old]: the occurrences of [old]
    are replaced from left to right, the search going on after each
    occurrence.  [skip] is the number of characters of an occurrence still to
    be passed over. *)
Fixpoint replace_from (old new : string) (skip : nat) (s : string) : string :=
  match s with
  | EmptyString => EmptyString
  | String c s' =>
      match skip with
      | S skip' => replace_from old new skip' s'
      | O =>
          if String.prefix old s
          then (new ++ replace_from old new (String.length old - 1) s')%string
          else String c (replace_from old new 0 s')
      end
  end.

Definition py_replace (old new s : string) : string := replace_from old new 0 s.

(** The text written to the file: [str(energy_weekly)] in which every
    comma followed by a space is replaced by a line feed and both brackets by
    nothing. *)
Definition newline : string := String "010" EmptyString.

Definition step_function_text (energy_weekly : list Z) : string :=
  py_replace "]" EmptyString
    (py_replace "[" EmptyString
       (py_replace ", " newline (py_str_list energy_weekly))).

(** ** Specification vocabulary *)

(** The window of [w] slots starting at slot [s] is feasible for a task of
    height [h]: it has positive length, lies within the profile, and every
    slot of it offers at least [h]. *)
Definition feasible (step_function : list Z) (h w s : Z) : Prop :=
  1 <= w /\ 0 <= s /\ s + w <= Z.of_nat (length step_function) /\
  forall j v, s <= j < s + w -> step_function !! Z.to_nat j = Some v -> h <= v.

Definition feasibleb (step_function : list Z) (h w s : Z) : bool :=
  (1 <=? w) && (0 <=? s) && (s + w <=? Z.of_nat (length step_function)) &&
  forallb (fun v => h <=? v) (take (Z.to_nat w) (drop (Z.to_nat s) step_function)).

(** The profile after [h] has been taken from the slots [t1 .. t2]. *)
Definition dec_window (step_function : list Z) (t1 t2 h : Z) : list Z :=
  imap (fun j v => if (t1 <=? Z.of_nat j) && (Z.of_nat j <=? t2) then v - h else v)
       step_function.

(** A task as the constructor leaves it. *)
Definition unplaced (x : task) : Prop := start_time x = -1 /\ end_time x = -1.

(** What the scan has established when it is about to visit slot [t]:
    [cs] is where the current run of sufficient slots starts ([t] itself when
    there is no run), the run is shorter than [w], and no window starting
    before [cs] is feasible. *)
Record scan_inv (sf : list Z) (h w t t1 cs : Z) : Prop := {
  inv_cs : cs = (if t1 =? -1 then t else t1);
  inv_range : 0 <= cs <= t;
  inv_run : forall j v, cs <= j < t -> sf !! Z.to_nat j = Some v -> h <= v;
  inv_short : 1 <= w -> t - cs < w;
  inv_before : forall s, s < cs -> ~ feasible sf h w s
}.

(** The outcome of a scan: either no window was found, and none is feasible,
    or the earliest feasible window [(r1, r2)] was. *)
Definition scan_outcome (sf : list Z) (h w r1 r2 : Z) : Prop :=
  (r2 = -1 /\ forall s, ~ feasible sf h w s) \/
  (r1 <> -1 /\ r2 <> -1 /\ r2 = r1 + w - 1 /\ feasible sf h w r1 /\
   forall s, s < r1 -> ~ feasible sf h w s).

(** What the three loop bodies have in common: the task is either left as
    it is together with the profile, no window being feasible, or the
    earliest feasible window is taken from the profile and the recorded
    times span [width] slots. *)
Definition task_step (x : task) (sf : list Z) (x' : task) (sf' : list Z) : Prop :=
  (x' = x /\ sf' = sf /\ forall s, ~ feasible sf (height x) (width x) s) \/
  (exists s start, feasible sf (height x) (width x) s /\
     (forall s', s' < s -> ~ feasible sf (height x) (width x) s') /\
     x' = set_times x start (start + width x - 1) /\
     sf' = dec_window sf s (s + width x - 1) (height x)).

(** All tasks are stepped in order, each on the profile the previous left. *)
Inductive run_steps : list task -> list Z -> list task -> list Z -> Prop :=
  | run_nil sf : run_steps [] sf [] sf
  | run_cons x rest sf x' sf' rest' sf'' :
      task_step x sf x' sf' ->
      run_steps rest sf' rest' sf'' ->
      run_steps (x :: rest) sf (x' :: rest') sf''.

(** Key orders of a task list. *)
Definition ascending (key : task -> Z) (l : list task) : Prop :=
  StronglySorted (fun a b => key a <= key b) l.

Definition descending (key : task -> Z) (l : list task) : Prop :=
  StronglySorted (fun a b => key b <= key a) l.

(** A configuration the specification calls invalid. *)
Definition invalid_configuration (tasks : list task) (step_function : list Z) : Prop :=
  tasks = [] \/ step_function = [] \/
  Exists (fun x => width x <= 0 \/ height x < 0) tasks.

(** The steps of [first_fit] proper: a task is either left as it is, no
    window being feasible, or recorded at the earliest feasible window, which
    is taken from the profile. *)
Inductive first_fit_steps : list task -> list Z -> list task -> list Z -> Prop :=
  | ff_nil sf : first_fit_steps [] sf [] sf
  | ff_skip x rest sf rest' sf' :
      (forall s, ~ feasible sf (height x) (width x) s) ->
      first_fit_steps rest sf rest' sf' ->
      first_fit_steps (x :: rest) sf (x :: rest') sf'
  | ff_place x rest sf s rest' sf' :
      feasible sf (height x) (width x) s ->
      (forall s', s' < s -> ~ feasible sf (height x) (width x) s') ->
      first_fit_steps rest (dec_window sf s (s + width x - 1) (height x)) rest' sf' ->
      first_fit_steps (x :: rest) sf (set_times x s (s + width x - 1) :: rest') sf'.

(** The area of the tasks that have a start. *)
Definition placed_area (tasks : list task) : Z :=
  foldr (fun x acc => (if start_time x =? -1 then 0 else width x * height x) + acc) 0 tasks.

(** The height the tasks with a start put on slot [j]. *)
Definition load (tasks : list task) (j : Z) : Z :=
  foldr (fun x acc =>
           (if negb (start_time x =? -1) && (start_time x <=? j) && (j <=? end_time x)
            then height x else 0) + acc) 0 tasks.

(** Every slot of the window of [w] slots starting at [s] holds exactly [h]:
    the window has no slack. *)
Definition tight (step_function : list Z) (h w s : Z) : Prop :=
  forall j v, s <= j < s + w -> step_function !! Z.to_nat j = Some v -> v = h.

(** The hours without production. *)
Definition night (t : nat) : Prop := (t < 8 \/ 21 <= t)%nat.

(** A predicate on the characters of a string. *)
Fixpoint string_forall (P : ascii -> Prop) (s : string) : Prop :=
  match s with
  | EmptyString => True
  | String c s' => P c /\ string_forall P s'
  end.

(** The characters of a printed int. *)
Definition number_char (c : ascii) : Prop :=
  existsb (Ascii.eqb c) ["-"; "0"; "1"; "2"; "3"; "4"; "5"; "6"; "7"; "8"; "9"]%char = true.

(** The typed profile after [h] has been taken from the slots [t1 .. t2]. *)
Definition dec_window_np (step_function : list number) (t1 t2 h : Z) : list number :=
  imap (fun j v => if (t1 <=? Z.of_nat j) && (Z.of_nat j <=? t2)
                   then NpFloat (num_value v - h) else v)
       step_function.

(** The steps of a heuristic on a typed profile: a task without a feasible
    window leaves the profile as it is, types included; a placed task turns
    the slots of the earliest feasible window into [np.float64] values. *)
Definition task_step_np (x : task) (sf : list number) (x' : task) (sf' : list number)
  : Prop :=
  (x' = x /\ sf' = sf /\
   forall s, ~ feasible (num_value <$> sf) (height x) (width x) s) \/
  (exists s start, feasible (num_value <$> sf) (height x) (width x) s /\
     (forall s', s' < s -> ~ feasible (num_value <$> sf) (height x) (width x) s') /\
     x' = set_times x start (start + width x - 1) /\
     sf' = dec_window_np sf s (s + width x - 1) (height x)).

Inductive run_steps_np : list task -> list number -> list task -> list number -> Prop :=
  | run_np_nil sf : run_steps_np [] sf [] sf
  | run_np_cons x rest sf x' sf' rest' sf'' :
      task_step_np x sf x' sf' ->
      run_steps_np rest sf' rest' sf'' ->
      run_steps_np (x :: rest) sf (x' :: rest') sf''.

(** ** Lists and the error monad *)

Lemma bind_Ok {A B} (f : A -> result B) (a : A) : (Ok a ≫= f) = f a.
Proof. reflexivity. Qed.

Lemma py_index_in_range (n : nat) (i : Z) :
  0 <= i < Z.of_nat n -> py_index n i = Ok (Z.to_nat i).
Proof.
  intros Hi. unfold py_index.
  destruct (Z.leb_spec 0 i); [|lia].
  destruct (Z.ltb_spec i (Z.of_nat n)); [|lia]. reflexivity.
Qed.

Lemma dec_window_length sf t1 t2 h : length (dec_window sf t1 t2 h) = length sf.
Proof. unfold dec_window. apply length_imap. Qed.

Lemma dec_window_lookup sf t1 t2 h (j : nat) :
  dec_window sf t1 t2 h !! j =
  (fun v => if (t1 <=? Z.of_nat j) && (Z.of_nat j <=? t2) then v - h else v) <$> sf !! j.
Proof. unfold dec_window. apply list_lookup_imap. Qed.

Lemma dec_window_empty sf t1 t2 h : t2 < t1 -> dec_window sf t1 t2 h = sf.
Proof.
  intros Hlt. apply list_eq. intros j. rewrite dec_window_lookup.
  destruct (sf !! j) as [v|]; simpl; [|reflexivity].
  destruct (Z.leb_spec t1 (Z.of_nat j)), (Z.leb_spec (Z.of_nat j) t2); simpl;
    try reflexivity; lia.
Qed.

Lemma isub_item_spec sf t h :
  0 <= t < Z.of_nat (length sf) ->
  isub_item sf t h = Ok (dec_window sf t t h).
Proof.
  intros Ht. unfold isub_item. rewrite py_index_in_range by lia. simpl.
  destruct (lookup_lt_is_Some_2 sf (Z.to_nat t)) as [v Hv]; [lia|].
  unfold mbind, result_bind. rewrite Hv. f_equal.
  apply list_eq. intros j. rewrite dec_window_lookup.
  destruct (decide (j = Z.to_nat t)) as [->|Hne].
  - rewrite list_lookup_insert_eq by lia. rewrite Hv. simpl.
    destruct (Z.leb_spec t (Z.of_nat (Z.to_nat t))); [|lia].
    destruct (Z.leb_spec (Z.of_nat (Z.to_nat t)) t); [|lia]. reflexivity.
  - rewrite list_lookup_insert_ne by congruence.
    destruct (sf !! j) as [u|]; simpl; [|reflexivity].
    destruct (Z.leb_spec t (Z.of_nat j)), (Z.leb_spec (Z.of_nat j) t); simpl;
      try reflexivity; lia.
Qed.

Lemma dec_window_step sf t t2 h :
  0 <= t -> t <= t2 ->
  dec_window (dec_window sf t t h) (t + 1) t2 h = dec_window sf t t2 h.
Proof.
  intros H0 Hle. apply list_eq. intros j. rewrite !dec_window_lookup.
  destruct (sf !! j) as [v|]; simpl; [|reflexivity]. f_equal.
  destruct (Z.leb_spec t (Z.of_nat j)), (Z.leb_spec (Z.of_nat j) t),
    (Z.leb_spec (t + 1) (Z.of_nat j)), (Z.leb_spec (Z.of_nat j) t2); simpl;
    try reflexivity; lia.
Qed.

Lemma isub_range_spec n : forall sf t h,
  0 <= t -> t + Z.of_nat n <= Z.of_nat (length sf) ->
  isub_range n t h sf = Ok (dec_window sf t (t + Z.of_nat n - 1) h).
Proof.
  induction n as [|n IH]; intros sf t h H0 Hlen; simpl isub_range.
  - rewrite dec_window_empty by lia. reflexivity.
  - rewrite isub_item_spec by lia. rewrite bind_Ok.
    rewrite IH by (rewrite ?dec_window_length; lia).
    destruct n as [|n'].
    + rewrite dec_window_empty by lia. do 2 f_equal. lia.
    + rewrite dec_window_step by lia. do 2 f_equal. lia.
Qed.

Lemma subtract_window_spec sf t1 t2 h :
  0 <= t1 -> t2 < Z.of_nat (length sf) ->
  subtract_window sf t1 t2 h = Ok (dec_window sf t1 t2 h).
Proof.
  intros H0 Hlen. unfold subtract_window.
  destruct (Z.le_gt_cases t1 t2) as [Hle|Hgt].
  - rewrite isub_range_spec by lia. do 2 f_equal. lia.
  - replace (Z.to_nat (t2 + 1 - t1)) with O by lia. simpl.
    rewrite dec_window_empty by lia. reflexivity.
Qed.

(** ** The scan of first_fit *)

Lemma feasible_needs_slot sf h w s j v :
  feasible sf h w s -> s <= j < s + w -> sf !! Z.to_nat j = Some v -> h <= v.
Proof. intros (_ & _ & _ & Hall). apply Hall. Qed.

Lemma first_fit_scan_inv sf h w : forall l pre t t1 cs,
  sf = pre ++ l -> t = Z.of_nat (length pre) ->
  scan_inv sf h w t t1 cs ->
  exists r1 r2, first_fit_scan h w l t t1 (-1) = (r1, r2) /\ scan_outcome sf h w r1 r2.
Proof.
  induction l as [|step l IH]; intros pre t t1 cs Hsf Ht [Hcs Hrange Hrun Hshort Hbefore].
  - (* the profile is exhausted *)
    simpl. exists t1, (-1). split; [reflexivity|]. left. split; [reflexivity|].
    intros s Hf. destruct (Z.lt_ge_cases s cs) as [Hlt|Hge].
    + exact (Hbefore s Hlt Hf).
    + destruct Hf as (Hw & _ & Hlen & _).
      rewrite Hsf, app_nil_r in Hlen. specialize (Hshort Hw). lia.
  - assert (Hstep : sf !! Z.to_nat t = Some step).
    { rewrite Hsf, Ht, Nat2Z.id. apply list_lookup_middle. reflexivity. }
    assert (Hsf' : sf = (pre ++ [step]) ++ l) by (rewrite <- app_assoc; exact Hsf).
    assert (Ht' : t + 1 = Z.of_nat (length (pre ++ [step]))).
    { rewrite length_app. simpl. lia. }
    simpl. destruct (Z.ltb_spec step h) as [Hlow|Hhigh].
    + (* slot t is insufficient: the run is reset *)
      apply (IH _ _ _ (t + 1) Hsf' Ht'). split.
      * reflexivity.
      * lia.
      * intros j v Hj. lia.
      * lia.
      * intros s Hs Hf. destruct (Z.lt_ge_cases s cs) as [Hlt|Hge].
        { exact (Hbefore s Hlt Hf). }
        { assert (Hw : 1 <= w) by (destruct Hf as (Hw & _); exact Hw).
          specialize (Hshort Hw).
          pose proof (feasible_needs_slot _ _ _ _ t step Hf ltac:(lia) Hstep). lia. }
    + (* slot t is sufficient: the run starts or goes on *)
      rewrite <- Hcs.
      assert (Hrun' : forall j v, cs <= j < t + 1 -> sf !! Z.to_nat j = Some v -> h <= v).
      { intros j v Hj Hv. destruct (Z.eq_dec j t) as [->|Hne].
        - rewrite Hstep in Hv. injection Hv as <-. lia.
        - apply (Hrun j v); [lia|exact Hv]. }
      destruct (Z.eqb_spec (t - cs) (w - 1)) as [Heq|Hneq].
      * (* the run has reached length w *)
        exists cs, t. split; [reflexivity|]. right.
        split; [lia|]. split; [lia|]. split; [lia|]. split; [|exact Hbefore].
        split; [lia|]. split; [lia|]. split.
        { pose proof (lookup_lt_Some _ _ _ Hstep). lia. }
        { intros j v Hj. apply Hrun'. lia. }
      * apply (IH _ _ _ cs Hsf' Ht'). split.
        { destruct (Z.eqb_spec cs (-1)); [lia|reflexivity]. }
        { lia. }
        { exact Hrun'. }
        { intros Hw. specialize (Hshort Hw). lia. }
        { exact Hbefore. }
Qed.

Lemma first_fit_scan_spec sf h w :
  exists r1 r2, first_fit_scan h w sf 0 (-1) (-1) = (r1, r2) /\ scan_outcome sf h w r1 r2.
Proof.
  apply (first_fit_scan_inv sf h w sf [] 0 (-1) 0); [reflexivity|reflexivity|].
  split; [reflexivity|lia|intros; lia|lia|].
  intros s Hs (_ & H0 & _). lia.
Qed.

Lemma feasible_bounds sf h w s :
  feasible sf h w s -> 0 <= s /\ s + w - 1 < Z.of_nat (length sf) /\ 1 <= w.
Proof. intros (Hw & H0 & Hlen & _). lia. Qed.

(** [first_fit_task] in closed form. *)
Lemma first_fit_task_cases x sf :
  (first_fit_task x sf = Ok (x, sf) /\ forall s, ~ feasible sf (height x) (width x) s) \/
  (exists s, feasible sf (height x) (width x) s /\
     (forall s', s' < s -> ~ feasible sf (height x) (width x) s') /\
     first_fit_task x sf =
       Ok (set_times x s (s + width x - 1), dec_window sf s (s + width x - 1) (height x))).
Proof.
  unfold first_fit_task.
  destruct (first_fit_scan_spec sf (height x) (width x)) as (r1 & r2 & -> & Hout).
  destruct Hout as [[-> Hnone] | (Hr1 & Hr2 & -> & Hf & Hmin)].
  - left. split; [|exact Hnone].
    simpl. rewrite andb_false_r. reflexivity.
  - right. exists r1. split; [exact Hf|]. split; [exact Hmin|].
    destruct (Z.eqb_spec r1 (-1)); [contradiction|].
    destruct (Z.eqb_spec (r1 + width x - 1) (-1)); [contradiction|]. simpl.
    destruct (feasible_bounds _ _ _ _ Hf) as (H0 & Hlen & _).
    rewrite subtract_window_spec by lia. reflexivity.
Qed.

(** ** next_fit and best_fit against first_fit *)

Lemma next_fit_scan_first_fit_scan h w : forall l t t1 t2,
  next_fit_scan h w l t t1 t2 = first_fit_scan h w l t t1 t2.
Proof.
  induction l as [|step l IH]; intros t t1 t2; simpl; [reflexivity|].
  rewrite !IH. reflexivity.
Qed.

Lemma py_slice_from_0 l : py_slice_from l 0 = l.
Proof.
  unfold py_slice_from, py_slice_bound. simpl.
  replace (Z.to_nat (Z.min 0 (Z.of_nat (length l)))) with O by lia. reflexivity.
Qed.

Lemma py_slice_to_0 l : py_slice_to l 0 = [].
Proof.
  unfold py_slice_to, py_slice_bound. simpl.
  replace (Z.to_nat (Z.min 0 (Z.of_nat (length l)))) with O by lia. reflexivity.
Qed.

(** The body of [next_fit] does what the body of [first_fit] does, whatever
    the previous iteration left in [it_begin]. *)
Lemma next_fit_task_first_fit_task x sf it_begin_prev :
  exists it_begin,
    next_fit_task x sf it_begin_prev =
    (r ← first_fit_task x sf; Ok (r.1, r.2, it_begin)).
Proof.
  unfold next_fit_task, first_fit_task.
  rewrite py_slice_from_0, py_slice_to_0, next_fit_scan_first_fit_scan.
  destruct (first_fit_scan (height x) (width x) sf 0 (-1) (-1)) as [t1 t2].
  assert (Hwrap : (if (t1 =? -1) || (t2 =? -1)
                   then next_fit_scan (height x) (width x) [] 0 t1 t2
                   else (t1, t2)) = (t1, t2)).
  { simpl. destruct ((t1 =? -1) || (t2 =? -1)); reflexivity. }
  rewrite Hwrap.
  destruct (negb (t1 =? -1) && negb (t2 =? -1)).
  - destruct (subtract_window sf t1 t2 (height x)) as [sf'|e]; simpl.
    + eexists. reflexivity.
    + exists 0. reflexivity.
  - simpl. eexists. reflexivity.
Qed.

Lemma next_fit_loop_first_fit tasks : forall sf it_begin,
  next_fit_loop tasks sf it_begin = first_fit tasks sf.
Proof.
  induction tasks as [|x rest IH]; intros sf it_begin; simpl; [reflexivity|].
  destruct (next_fit_task_first_fit_task x sf it_begin) as [it' ->].
  destruct (first_fit_task x sf) as [[x' sf']|e]; simpl; [|reflexivity].
  rewrite IH. reflexivity.
Qed.

(** The scan of [best_fit] finds the window the scan of [first_fit] finds. *)
Lemma best_fit_scan_window h w : forall l t t1 t2 cur_area max_area best_pos,
  (best_fit_scan h w l t t1 t2 cur_area max_area best_pos).1 =
  first_fit_scan h w l t t1 t2.
Proof.
  induction l as [|step l IH]; intros t t1 t2 cur_area max_area best_pos; simpl;
    [reflexivity|].
  destruct (step <? h); [apply IH|].
  destruct (Z.ltb_spec (t - (if t1 =? -1 then t else t1)) (w - 1)) as [Hlt|Hge].
  - destruct (Z.eqb_spec (t - (if t1 =? -1 then t else t1)) (w - 1)); [lia|]. apply IH.
  - destruct (t - (if t1 =? -1 then t else t1) =? w - 1); [reflexivity|apply IH].
Qed.

(** [best_fit_task] in closed form: the window is the one of [first_fit_task],
    the recorded start is whatever [best_pos] holds. *)
Lemma best_fit_task_cases x sf :
  (best_fit_task x sf = Ok (x, sf) /\ forall s, ~ feasible sf (height x) (width x) s) \/
  (exists s best_pos, feasible sf (height x) (width x) s /\
     (forall s', s' < s -> ~ feasible sf (height x) (width x) s') /\
     best_fit_task x sf =
       Ok (set_times x best_pos (best_pos + width x - 1),
           dec_window sf s (s + width x - 1) (height x))).
Proof.
  unfold best_fit_task.
  pose proof (best_fit_scan_window (height x) (width x) sf 0 (-1) (-1) 0 0 (-1)) as Hwin.
  destruct (best_fit_scan (height x) (width x) sf 0 (-1) (-1) 0 0 (-1)) as [[t1 t2] bp].
  simpl in Hwin.
  destruct (first_fit_scan_spec sf (height x) (width x)) as (r1 & r2 & Hscan & Hout).
  rewrite <- Hwin in Hscan. injection Hscan as -> ->.
  destruct Hout as [[-> Hnone] | (Hr1 & Hr2 & -> & Hf & Hmin)].
  - left. split; [|exact Hnone].
    simpl. rewrite andb_false_r. reflexivity.
  - right. exists r1, bp. split; [exact Hf|]. split; [exact Hmin|].
    destruct (Z.eqb_spec r1 (-1)); [contradiction|].
    destruct (Z.eqb_spec (r1 + width x - 1) (-1)); [contradiction|]. simpl.
    destruct (feasible_bounds _ _ _ _ Hf) as (H0 & Hlen & _).
    rewrite subtract_window_spec by lia. reflexivity.
Qed.

(** ** One step of any heuristic *)

Lemma first_fit_run tasks : forall sf,
  exists tasks' sf', first_fit tasks sf = Ok (tasks', sf') /\ run_steps tasks sf tasks' sf'.
Proof.
  induction tasks as [|x rest IH]; intros sf; simpl.
  - exists [], sf. split; [reflexivity|constructor].
  - destruct (first_fit_task_cases x sf) as [[-> Hnone] | (s & Hf & Hmin & ->)]; simpl.
    + destruct (IH sf) as (rest' & sf' & -> & Hrun). simpl.
      exists (x :: rest'), sf'. split; [reflexivity|].
      econstructor; [|exact Hrun]. left. auto.
    + destruct (IH (dec_window sf s (s + width x - 1) (height x)))
        as (rest' & sf' & -> & Hrun). simpl.
      eexists _, sf'. split; [reflexivity|].
      econstructor; [|exact Hrun]. right. exists s, s. auto.
Qed.

Lemma best_fit_run tasks : forall sf,
  exists tasks' sf', best_fit tasks sf = Ok (tasks', sf') /\ run_steps tasks sf tasks' sf'.
Proof.
  induction tasks as [|x rest IH]; intros sf; simpl.
  - exists [], sf. split; [reflexivity|constructor].
  - destruct (best_fit_task_cases x sf) as [[-> Hnone] | (s & bp & Hf & Hmin & ->)]; simpl.
    + destruct (IH sf) as (rest' & sf' & -> & Hrun). simpl.
      exists (x :: rest'), sf'. split; [reflexivity|].
      econstructor; [|exact Hrun]. left. auto.
    + destruct (IH (dec_window sf s (s + width x - 1) (height x)))
        as (rest' & sf' & -> & Hrun). simpl.
      eexists _, sf'. split; [reflexivity|].
      econstructor; [|exact Hrun]. right. exists s, bp. auto.
Qed.

Lemma allocate_run hr tasks sf :
  exists tasks' sf', allocate hr tasks sf = Ok (tasks', sf') /\ run_steps tasks sf tasks' sf'.
Proof.
  destruct hr; simpl.
  - apply first_fit_run.
  - unfold next_fit. rewrite next_fit_loop_first_fit. apply first_fit_run.
  - apply best_fit_run.
Qed.

(** ** Properties of a run *)

Lemma feasibleb_feasible sf h w s : feasibleb sf h w s = true -> feasible sf h w s.
Proof.
  unfold feasibleb. rewrite !andb_true_iff.
  intros [[[Hw H0] Hlen] Hall].
  apply Z.leb_le in Hw, H0, Hlen.
  split; [exact Hw|]. split; [exact H0|]. split; [exact Hlen|].
  intros j v Hj Hv.
  apply Is_true_true, forallb_True in Hall.
  rewrite Forall_lookup in Hall.
  specialize (Hall (Z.to_nat (j - s)) v).
  apply Is_true_true_1, Z.leb_le in Hall; [exact Hall|].
  rewrite lookup_take_lt by lia. rewrite lookup_drop.
  replace (Z.to_nat s + Z.to_nat (j - s))%nat with (Z.to_nat j) by lia. exact Hv.
Qed.

Lemma low_profile_infeasible sf h w :
  Forall (fun v => v < h) sf -> forall s, ~ feasible sf h w s.
Proof.
  intros Hlow s (Hw & H0 & Hlen & Hall).
  destruct (lookup_lt_is_Some_2 sf (Z.to_nat s)) as [v Hv]; [lia|].
  pose proof (Forall_lookup_1 _ _ _ _ Hlow Hv) as Hlt. simpl in Hlt.
  specialize (Hall s v ltac:(lia) Hv). lia.
Qed.

Lemma dec_window_nonneg sf h w s :
  feasible sf h w s ->
  Forall (fun v => 0 <= v) sf ->
  Forall (fun v => 0 <= v) (dec_window sf s (s + w - 1) h).
Proof.
  intros Hf Hsf. apply Forall_lookup. intros j u Hu.
  rewrite dec_window_lookup in Hu.
  destruct (sf !! j) as [v|] eqn:Hv; simpl in Hu; [|discriminate].
  injection Hu as <-.
  pose proof (Forall_lookup_1 _ _ _ _ Hsf Hv) as Hv0. simpl in Hv0.
  destruct (Z.leb_spec s (Z.of_nat j)), (Z.leb_spec (Z.of_nat j) (s + w - 1)); simpl;
    try exact Hv0.
  assert (h <= v); [|lia].
  apply (feasible_needs_slot sf h w s (Z.of_nat j) v Hf); [lia|].
  rewrite Nat2Z.id. exact Hv.
Qed.

Lemma run_steps_nonneg tasks sf tasks' sf' :
  run_steps tasks sf tasks' sf' ->
  Forall (fun v => 0 <= v) sf ->
  Forall (fun v => 0 <= v) sf' /\ length sf' = length sf.
Proof.
  induction 1 as [sf | x rest sf x' sf' rest' sf'' Hstep Hrun IH]; intros Hsf.
  - split; [exact Hsf|reflexivity].
  - destruct Hstep as [(_ & -> & _) | (s & start & Hf & _ & _ & ->)].
    + apply IH, Hsf.
    + destruct IH as [Hnn Hlen]; [apply dec_window_nonneg; assumption|].
      split; [exact Hnn|]. rewrite Hlen. apply dec_window_length.
Qed.

Lemma run_steps_span tasks sf tasks' sf' :
  run_steps tasks sf tasks' sf' ->
  Forall unplaced tasks ->
  width <$> tasks' = width <$> tasks /\
  Forall (fun x' => ~ unplaced x' -> end_time x' - start_time x' + 1 = width x') tasks'.
Proof.
  induction 1 as [sf | x rest sf x' sf' rest' sf'' Hstep Hrun IH]; intros Hun.
  - split; [reflexivity|constructor].
  - apply Forall_cons in Hun as [Hx Hrest].
    destruct (IH Hrest) as [Hw Hall].
    destruct Hstep as [(-> & _ & _) | (s & start & _ & _ & -> & _)].
    + split; [simpl; f_equal; exact Hw|].
      constructor; [|exact Hall]. intros Hnot. contradiction.
    + split; [simpl; f_equal; exact Hw|].
      constructor; [|exact Hall]. intros _. simpl. lia.
Qed.

(** A task without a feasible window is stepped over. *)
Lemma allocate_skip hr x rest sf :
  (forall s, ~ feasible sf (height x) (width x) s) ->
  exists rest' sf',
    allocate hr rest sf = Ok (rest', sf') /\
    allocate hr (x :: rest) sf = Ok (x :: rest', sf').
Proof.
  intros Hnone.
  destruct (allocate_run hr rest sf) as (rest' & sf' & Hrest & _).
  exists rest', sf'. split; [exact Hrest|].
  destruct hr; simpl in *.
  - destruct (first_fit_task_cases x sf) as [[-> _] | (s & Hf & _)];
      [|destruct (Hnone s Hf)].
    simpl. rewrite Hrest. reflexivity.
  - unfold next_fit in *. rewrite next_fit_loop_first_fit in *. simpl.
    destruct (first_fit_task_cases x sf) as [[-> _] | (s & Hf & _)];
      [|destruct (Hnone s Hf)].
    simpl. rewrite Hrest. reflexivity.
  - destruct (best_fit_task_cases x sf) as [[-> _] | (s & bp & Hf & _)];
      [|destruct (Hnone s Hf)].
    simpl. rewrite Hrest. reflexivity.
Qed.

(** A window that lies within a common prefix of two profiles is feasible in
    both or in neither. *)
Lemma feasible_common_prefix sf sf2 h w s (n : nat) :
  s + w <= Z.of_nat n ->
  (n <= length sf2)%nat ->
  (forall j, (j < n)%nat -> sf !! j = sf2 !! j) ->
  feasible sf h w s -> feasible sf2 h w s.
Proof.
  intros Hn Hlen2 Hsame (Hw & H0 & Hlen & Hall).
  split; [exact Hw|]. split; [exact H0|]. split; [lia|].
  intros j v Hj Hv. apply (Hall j v Hj). rewrite Hsame by lia. exact Hv.
Qed.

Lemma first_fit_scan_stops sf h w s later :
  feasible sf h w s ->
  (forall s', feasible sf h w s' -> s <= s') ->
  first_fit_scan h w (take (Z.to_nat (s + w)) sf ++ later) 0 (-1) (-1) = (s, s + w - 1).
Proof.
  intros Hf Hmin.
  destruct (feasible_bounds _ _ _ _ Hf) as (H0 & Hlen & Hw).
  set (n := Z.to_nat (s + w)). set (sf2 := take n sf ++ later).
  assert (Hlen1 : length (take n sf) = n) by (rewrite length_take; lia).
  assert (Hsame : forall j, (j < n)%nat -> sf !! j = sf2 !! j).
  { intros j Hj. unfold sf2. rewrite lookup_app_l by lia.
    rewrite lookup_take_lt by lia. reflexivity. }
  assert (Hlen2 : (n <= length sf2)%nat) by (unfold sf2; rewrite length_app; lia).
  assert (Hf2 : feasible sf2 h w s).
  { apply (feasible_common_prefix sf sf2 h w s n); [lia|exact Hlen2|exact Hsame|exact Hf]. }
  destruct (first_fit_scan_spec sf2 h w) as (r1 & r2 & -> & Hout).
  destruct Hout as [[_ Hnone] | (_ & _ & -> & Hr1 & Hmin2)]; [destruct (Hnone s Hf2)|].
  assert (Hle : r1 <= s).
  { destruct (Z.le_gt_cases r1 s) as [Hle|Hgt]; [exact Hle|]. destruct (Hmin2 s Hgt Hf2). }
  assert (Hge : s <= r1).
  { apply Hmin. apply (feasible_common_prefix sf2 sf h w r1 n); [lia|lia| |exact Hr1].
    intros j Hj. symmetry. apply Hsame, Hj. }
  replace r1 with s by lia. reflexivity.
Qed.

Lemma best_fit_task_profile x sf :
  exists xb xf sf',
    best_fit_task x sf = Ok (xb, sf') /\ first_fit_task x sf = Ok (xf, sf').
Proof.
  destruct (first_fit_task_cases x sf) as [[Hff Hnone] | (s & Hf & Hmin & Hff)];
    destruct (best_fit_task_cases x sf) as [[Hbf Hnone'] | (s' & bp & Hf' & Hmin' & Hbf)].
  - eauto.
  - destruct (Hnone s' Hf').
  - destruct (Hnone' s Hf).
  - assert (s = s') as <-.
    { destruct (Z.lt_trichotomy s s') as [Hlt|[Heq|Hgt]]; [|exact Heq|].
      - destruct (Hmin' s Hlt Hf).
      - destruct (Hmin s' Hgt Hf'). }
    eauto.
Qed.

Lemma best_fit_profile tasks : forall sf,
  exists tasks_b tasks_f sf',
    best_fit tasks sf = Ok (tasks_b, sf') /\ first_fit tasks sf = Ok (tasks_f, sf').
Proof.
  induction tasks as [|x rest IH]; intros sf; simpl.
  - eauto.
  - destruct (best_fit_task_profile x sf) as (xb & xf & sf1 & -> & ->). simpl.
    destruct (IH sf1) as (tb & tf & sf2 & -> & ->). simpl. eauto.
Qed.

(** ** Sorting *)

Lemma insert_by_key_perm key x l : insert_by_key key x l ≡ₚ x :: l.
Proof.
  induction l as [|y l IH]; simpl; [reflexivity|].
  destruct (key x <=? key y); [reflexivity|].
  rewrite IH. apply Permutation_swap.
Qed.

Lemma insert_by_key_ascending key x l :
  ascending key l -> ascending key (insert_by_key key x l).
Proof.
  unfold ascending. induction l as [|y l IH]; intros Hl; simpl.
  - constructor; constructor.
  - apply StronglySorted_inv in Hl as [Hl Hy].
    destruct (Z.leb_spec (key x) (key y)) as [Hle|Hgt].
    + constructor; [constructor; assumption|].
      constructor; [exact Hle|].
      eapply Forall_impl; [exact Hy|]. simpl. intros z Hz. lia.
    + constructor; [apply IH, Hl|].
      rewrite insert_by_key_perm. constructor; [lia|exact Hy].
Qed.

Lemma list_sort_ascending key l : ascending key (list_sort key l).
Proof.
  induction l as [|x l IH]; simpl; [constructor|].
  apply insert_by_key_ascending, IH.
Qed.

Lemma list_sort_perm key l : list_sort key l ≡ₚ l.
Proof.
  induction l as [|x l IH]; simpl; [reflexivity|].
  rewrite insert_by_key_perm, IH. reflexivity.
Qed.

(** ** The efficacy expression *)

Lemma py_min_min a b : py_min a b = Z.min a b.
Proof. unfold py_min. destruct (Z.ltb_spec b a); lia. Qed.

Lemma allocate_nil hr sf : allocate hr [] sf = Ok ([], sf).
Proof. destruct hr; reflexivity. Qed.

Lemma allocate_all_skipped hr tasks sf :
  Forall (fun x => forall s, ~ feasible sf (height x) (width x) s) tasks ->
  allocate hr tasks sf = Ok (tasks, sf).
Proof.
  induction 1 as [|x rest Hx Hrest IH]; [apply allocate_nil|].
  destruct (allocate_skip hr x rest sf Hx) as (rest' & sf' & Hr & ->).
  rewrite IH in Hr. injection Hr as <- <-. reflexivity.
Qed.

Lemma empty_profile_infeasible h w s : ~ feasible [] h w s.
Proof. intros (Hw & H0 & Hlen & _). simpl in Hlen. lia. Qed.

Lemma nonpositive_width_infeasible sf h w s : w <= 0 -> ~ feasible sf h w s.
Proof. intros Hw0 (Hw & _). lia. Qed.

(** * The claims *)

(** C1. The claim: best-fit places every task in the window first-fit
    takes, records the same start and end and leaves the same profile.
    The code leaves the same profile on every input, yet on the profile
    [5,5,5,0,0,5,5,5] with one task of duration 3 and power 5 [best_fit]
    records start -1 and end 1 where [first_fit] records start 0 and end 2:
    a window without slack never updates [best_pos]. *)
Theorem best_fit_zero_slack_start :
  (forall tasks sf, exists tasks_b tasks_f sf',
      best_fit tasks sf = Ok (tasks_b, sf') /\ first_fit tasks sf = Ok (tasks_f, sf')) /\
  best_fit [new_task 3 5] [5;5;5;0;0;5;5;5] =
    Ok ([mk_task 3 5 (-1) 1], [0;0;0;0;0;5;5;5]) /\
  first_fit [new_task 3 5] [5;5;5;0;0;5;5;5] =
    Ok ([mk_task 3 5 0 2], [0;0;0;0;0;5;5;5]).
Proof.
  split; [intros tasks sf; apply best_fit_profile|].
  split; reflexivity.
Qed.

(** C2. The claim: next-fit scans from a cursor carried over from the
    previous tasks.  The code assigns [it_begin = 0] at the top of every
    iteration: on the profile [5,5,5,5] with the tasks (duration 1, power 3)
    and (duration 1, power 2) the second task is placed at slot 0 again, not
    at slot 1 where the cursor would stand, whatever value the variable held
    before. *)
Theorem next_fit_rescans_from_zero :
  next_fit [new_task 1 3; new_task 1 2] [5;5;5;5] =
    Ok ([mk_task 1 3 0 0; mk_task 1 2 0 0], [0;5;5;5]) /\
  forall it_begin,
    next_fit_loop [new_task 1 3; new_task 1 2] [5;5;5;5] it_begin =
      Ok ([mk_task 1 3 0 0; mk_task 1 2 0 0], [0;5;5;5]).
Proof. split; [reflexivity|]. intros it_begin. reflexivity. Qed.

(** C3. For every task list and every profile without a negative entry,
    each of the three heuristics returns, and the profile it leaves has no
    negative entry (and the length it had). *)
Theorem allocation_keeps_profile_nonnegative hr tasks sf :
  Forall (fun v => 0 <= v) sf ->
  exists tasks' sf',
    allocate hr tasks sf = Ok (tasks', sf') /\
    Forall (fun v => 0 <= v) sf' /\ length sf' = length sf.
Proof.
  intros Hsf.
  destruct (allocate_run hr tasks sf) as (tasks' & sf' & Halloc & Hrun).
  exists tasks', sf'. split; [exact Halloc|].
  apply (run_steps_nonneg _ _ _ _ Hrun Hsf).
Qed.

Lemma allocation_keeps_profile_nonnegative_witness :
  Forall (fun v => 0 <= v) [5;5;5;0;0;5;5;5] /\
  exists tasks' sf',
    allocate BestFit [new_task 3 5; new_task 2 4] [5;5;5;0;0;5;5;5] = Ok (tasks', sf') /\
    Forall (fun v => 0 <= v) sf' /\ length sf' = length [5;5;5;0;0;5;5;5].
Proof.
  assert (H : Forall (fun v => 0 <= v) [5;5;5;0;0;5;5;5]) by (repeat constructor; lia).
  split; [exact H|].
  exact (allocation_keeps_profile_nonnegative BestFit
           [new_task 3 5; new_task 2 4] [5;5;5;0;0;5;5;5] H).
Defined.

(** C4. On tasks as the constructor leaves them, each of the three
    heuristics returns the tasks with their widths, and every task whose
    start and end are no longer the sentinel pair (-1, -1) has
    end_time - start_time + 1 = width. *)
Theorem placed_tasks_span_their_width hr tasks sf :
  Forall unplaced tasks ->
  exists tasks' sf',
    allocate hr tasks sf = Ok (tasks', sf') /\
    width <$> tasks' = width <$> tasks /\
    Forall (fun x' => ~ unplaced x' -> end_time x' - start_time x' + 1 = width x') tasks'.
Proof.
  intros Hun.
  destruct (allocate_run hr tasks sf) as (tasks' & sf' & Halloc & Hrun).
  exists tasks', sf'. split; [exact Halloc|].
  apply (run_steps_span _ _ _ _ Hrun Hun).
Qed.

Lemma placed_tasks_span_their_width_witness :
  Forall unplaced [new_task 3 5; new_task 2 4] /\
  exists tasks' sf',
    allocate FirstFit [new_task 3 5; new_task 2 4] [5;5;5;0;0;5;5;5] = Ok (tasks', sf') /\
    width <$> tasks' = width <$> [new_task 3 5; new_task 2 4] /\
    Forall (fun x' => ~ unplaced x' -> end_time x' - start_time x' + 1 = width x') tasks'.
Proof.
  assert (H : Forall unplaced [new_task 3 5; new_task 2 4])
    by (repeat constructor; reflexivity).
  split; [exact H|].
  exact (placed_tasks_span_their_width FirstFit
           [new_task 3 5; new_task 2 4] [5;5;5;0;0;5;5;5] H).
Defined.

(** C5. First-fit gives a task the earliest-starting feasible window: when
    the window of [width] slots starting at [s] is feasible and no feasible
    window starts earlier, the task is recorded at start [s] and end
    [s + width - 1], its height is taken from exactly those slots, and the
    remaining tasks are processed on that profile; the scan stops at slot
    [s + width - 1], whatever the slots after it hold.  On the profile
    [5,5,5,0,0,5,5,5] one task of duration 3 and power 5 is placed at start 0,
    end 2 and leaves [0,0,0,0,0,5,5,5]. *)
Theorem first_fit_earliest_window :
  (forall x rest sf s,
      feasible sf (height x) (width x) s ->
      (forall s', feasible sf (height x) (width x) s' -> s <= s') ->
      first_fit_task x sf =
        Ok (set_times x s (s + width x - 1),
            dec_window sf s (s + width x - 1) (height x)) /\
      (exists rest' sf',
          first_fit rest (dec_window sf s (s + width x - 1) (height x)) = Ok (rest', sf') /\
          first_fit (x :: rest) sf = Ok (set_times x s (s + width x - 1) :: rest', sf')) /\
      (forall later,
          first_fit_scan (height x) (width x)
            (take (Z.to_nat (s + width x)) sf ++ later) 0 (-1) (-1) =
          (s, s + width x - 1))) /\
  first_fit [new_task 3 5] [5;5;5;0;0;5;5;5] =
    Ok ([mk_task 3 5 0 2], [0;0;0;0;0;5;5;5]).
Proof.
  split; [|reflexivity].
  intros x rest sf s Hf Hmin.
  assert (Htask : first_fit_task x sf =
            Ok (set_times x s (s + width x - 1),
                dec_window sf s (s + width x - 1) (height x))).
  { destruct (first_fit_task_cases x sf) as [[_ Hnone] | (s0 & Hf0 & Hmin0 & ->)];
      [destruct (Hnone s Hf)|].
    assert (s0 = s) as ->; [|reflexivity].
    pose proof (Hmin s0 Hf0).
    destruct (Z.le_gt_cases s0 s) as [Hle|Hgt]; [lia|].
    destruct (Hmin0 s Hgt Hf). }
  split; [exact Htask|]. split.
  - destruct (first_fit_run rest (dec_window sf s (s + width x - 1) (height x)))
      as (rest' & sf' & Hrest & _).
    exists rest', sf'. split; [exact Hrest|].
    simpl. rewrite Htask. simpl. rewrite Hrest. reflexivity.
  - intros later. apply first_fit_scan_stops; assumption.
Qed.

Lemma first_fit_earliest_window_witness :
  feasible [5;5;5;0;0;5;5;5] 5 3 0 /\
  (forall s', feasible [5;5;5;0;0;5;5;5] 5 3 s' -> 0 <= s') /\
  first_fit_task (new_task 3 5) [5;5;5;0;0;5;5;5] =
    Ok (mk_task 3 5 0 2, [0;0;0;0;0;5;5;5]).
Proof.
  assert (Hf : feasible [5;5;5;0;0;5;5;5] 5 3 0)
    by (apply feasibleb_feasible; reflexivity).
  assert (Hmin : forall s', feasible [5;5;5;0;0;5;5;5] 5 3 s' -> 0 <= s')
    by (intros s' (_ & H0 & _); exact H0).
  split; [exact Hf|]. split; [exact Hmin|].
  exact (proj1 (proj1 first_fit_earliest_window
                  (new_task 3 5) [] [5;5;5;0;0;5;5;5] 0 Hf Hmin)).
Defined.

(** C6. A task for which no window is feasible when it is processed is
    returned as it was (for a task as constructed: start -1, end -1), the
    profile is the one the remaining tasks are processed on, and the
    heuristic returns; this holds for the three heuristics.  On the profile
    [3,3,3,3] a task of duration 2 and power 5 stays unplaced and the profile
    is unchanged. *)
Theorem infeasible_task_left_unplaced :
  (forall hr x rest sf,
      (forall s, ~ feasible sf (height x) (width x) s) ->
      first_fit_task x sf = Ok (x, sf) /\
      exists rest' sf',
        allocate hr rest sf = Ok (rest', sf') /\
        allocate hr (x :: rest) sf = Ok (x :: rest', sf')) /\
  (forall hr,
      allocate hr [new_task 2 5] [3;3;3;3] = Ok ([mk_task 2 5 (-1) (-1)], [3;3;3;3])).
Proof.
  split; [|intros hr; destruct hr; reflexivity].
  intros hr x rest sf Hnone. split.
  - destruct (first_fit_task_cases x sf) as [[Hff _] | (s & Hf & _)];
      [exact Hff|destruct (Hnone s Hf)].
  - apply allocate_skip, Hnone.
Qed.

Lemma infeasible_task_left_unplaced_witness :
  (forall s, ~ feasible [3;3;3;3] 5 2 s) /\
  exists rest' sf',
    allocate NextFit [new_task 1 2] [3;3;3;3] = Ok (rest', sf') /\
    allocate NextFit [new_task 2 5; new_task 1 2] [3;3;3;3] =
      Ok (new_task 2 5 :: rest', sf').
Proof.
  assert (Hnone : forall s, ~ feasible [3;3;3;3] 5 2 s).
  { apply low_profile_infeasible. repeat constructor; lia. }
  split; [exact Hnone|].
  exact (proj2 (proj1 infeasible_task_left_unplaced
                  NextFit (new_task 2 5) [new_task 1 2] [3;3;3;3] Hnone)).
Defined.

(** C7, as the specification states it, fails: the task list with one task
    of duration 1 and power -2 is an invalid configuration, yet [first_fit]
    raises nothing on the profile [5]; it places the task and changes the
    profile to [7]. *)
Lemma invalid_configuration_not_rejected :
  invalid_configuration [new_task 1 (-2)] [5] /\
  allocate FirstFit [new_task 1 (-2)] [5] = Ok ([mk_task 1 (-2) 0 0], [7]) /\
  ~ (exists e, allocate FirstFit [new_task 1 (-2)] [5] = Raise e).
Proof.
  split.
  - right. right. constructor. right. simpl. lia.
  - split; [reflexivity|]. intros [e He]. discriminate He.
Qed.

(** C7, amended.  The three heuristics validate nothing and raise nothing:
    on every task list and profile they return; an empty task list leaves
    the profile as it is; an empty profile leaves every task and the profile
    as they are; a task of non-positive duration is returned as it is and
    the remaining tasks are processed on the unchanged profile. *)
Theorem allocation_does_not_validate hr :
  (forall tasks sf, exists tasks' sf', allocate hr tasks sf = Ok (tasks', sf')) /\
  (forall sf, allocate hr [] sf = Ok ([], sf)) /\
  (forall tasks, allocate hr tasks [] = Ok (tasks, [])) /\
  (forall x rest sf,
      width x <= 0 ->
      exists rest' sf',
        allocate hr rest sf = Ok (rest', sf') /\
        allocate hr (x :: rest) sf = Ok (x :: rest', sf')).
Proof.
  split; [|split; [|split]].
  - intros tasks sf.
    destruct (allocate_run hr tasks sf) as (tasks' & sf' & Halloc & _). eauto.
  - apply allocate_nil.
  - intros tasks. apply allocate_all_skipped.
    apply Forall_forall. intros x _ s. apply empty_profile_infeasible.
  - intros x rest sf Hw. apply allocate_skip.
    intros s. apply nonpositive_width_infeasible, Hw.
Qed.

Lemma allocation_does_not_validate_witness :
  width (new_task 0 5) <= 0 /\
  exists rest' sf',
    allocate BestFit [new_task 1 2] [5;5] = Ok (rest', sf') /\
    allocate BestFit [new_task 0 5; new_task 1 2] [5;5] = Ok (new_task 0 5 :: rest', sf').
Proof.
  assert (H : width (new_task 0 5) <= 0) by (simpl; lia).
  split; [exact H|].
  exact (proj2 (proj2 (proj2 (allocation_does_not_validate BestFit)))
           (new_task 0 5) [new_task 1 2] [5;5] H).
Defined.

(** C9. The claim: the tasks are sorted in descending order of the key.
    [tasks.sort(key=...)] sorts ascending: for each of the three keys the
    result is a permutation of the tasks in ascending key order, and the
    tasks (2, 2), (1, 1) come out as (1, 1), (2, 2), which is not
    descending. *)
Theorem sort_tasks_ascending :
  (forall o tasks,
      ascending (sort_key o) (sort_tasks o tasks) /\ sort_tasks o tasks ≡ₚ tasks) /\
  (forall o, sort_tasks o [new_task 2 2; new_task 1 1] = [new_task 1 1; new_task 2 2]) /\
  (forall o, ~ descending (sort_key o) (sort_tasks o [new_task 2 2; new_task 1 1])).
Proof.
  split; [|split].
  - intros o tasks. split; [apply list_sort_ascending|apply list_sort_perm].
  - intros o. destruct o; reflexivity.
  - intros o Hdesc.
    assert (Hsort : sort_tasks o [new_task 2 2; new_task 1 1] = [new_task 1 1; new_task 2 2])
      by (destruct o; reflexivity).
    rewrite Hsort in Hdesc. unfold descending in Hdesc.
    apply StronglySorted_inv in Hdesc as [_ Hhd].
    apply Forall_cons in Hhd as [Hle _].
    destruct o; simpl in Hle; unfold sort_by_width, sort_by_height, sort_by_area in Hle;
      simpl in Hle; lia.
Qed.

(** C10. For every task list and profile [next_fit] returns what
    [first_fit] returns: the same tasks with the same start and end times
    and the same profile.  The value an iteration leaves in [it_begin] has
    no effect on the next one, the first scan runs over the whole profile
    and the wrap-around scan over the empty slice. *)
Theorem next_fit_is_first_fit tasks sf :
  next_fit tasks sf = first_fit tasks sf /\
  (forall it_begin, next_fit_loop tasks sf it_begin = first_fit tasks sf) /\
  py_slice_from sf 0 = sf /\ py_slice_to sf 0 = [].
Proof.
  split; [unfold next_fit; apply next_fit_loop_first_fit|].
  split; [intros it_begin; apply next_fit_loop_first_fit|].
  split; [apply py_slice_from_0|apply py_slice_to_0].
Qed.

(** * Further properties of the allocation code *)

(** ** What a run leaves alone *)

Lemma run_steps_shape tasks sf tasks' sf' :
  run_steps tasks sf tasks' sf' ->
  length tasks' = length tasks /\
  width <$> tasks' = width <$> tasks /\
  height <$> tasks' = height <$> tasks /\
  length sf' = length sf.
Proof.
  induction 1 as [sf | x rest sf x' sf' rest' sf'' Hstep Hrun IH].
  - repeat split.
  - destruct IH as (Hlen & Hw & Hh & Hsf).
    assert (Hx : width x' = width x /\ height x' = height x /\ length sf' = length sf).
    { destruct Hstep as [(-> & -> & _) | (s & start & _ & _ & -> & ->)].
      - repeat split.
      - simpl. rewrite dec_window_length. repeat split. }
    destruct Hx as (Hxw & Hxh & Hxsf).
    split; [simpl; lia|].
    split; [rewrite !fmap_cons, Hw, Hxw; reflexivity|].
    split; [rewrite !fmap_cons, Hh, Hxh; reflexivity|].
    lia.
Qed.

(** X1. Whatever the tasks and the profile, each heuristic returns as many
    tasks as it was given, in the order given, with their widths and heights
    untouched, and a profile of the length it had. *)
Theorem allocation_preserves_shape hr tasks sf :
  exists tasks' sf',
    allocate hr tasks sf = Ok (tasks', sf') /\
    length tasks' = length tasks /\
    width <$> tasks' = width <$> tasks /\
    height <$> tasks' = height <$> tasks /\
    length sf' = length sf.
Proof.
  destruct (allocate_run hr tasks sf) as (tasks' & sf' & Halloc & Hrun).
  exists tasks', sf'. split; [exact Halloc|].
  apply (run_steps_shape _ _ _ _ Hrun).
Qed.

(** ** Allocation in batches *)

Lemma first_fit_app tasks1 : forall tasks2 sf,
  first_fit (tasks1 ++ tasks2) sf =
  ('(tasks1', sf1) ← first_fit tasks1 sf;
   '(tasks2', sf2) ← first_fit tasks2 sf1;
   Ok (tasks1' ++ tasks2', sf2)).
Proof.
  induction tasks1 as [|x rest IH]; intros tasks2 sf; simpl.
  - destruct (first_fit tasks2 sf) as [[t2 sf2]|e]; reflexivity.
  - destruct (first_fit_task x sf) as [[x' sf']|e]; simpl; [|reflexivity].
    rewrite IH.
    destruct (first_fit rest sf') as [[r' sf1]|e]; simpl; [|reflexivity].
    destruct (first_fit tasks2 sf1) as [[t2 sf2]|e]; reflexivity.
Qed.

Lemma best_fit_app tasks1 : forall tasks2 sf,
  best_fit (tasks1 ++ tasks2) sf =
  ('(tasks1', sf1) ← best_fit tasks1 sf;
   '(tasks2', sf2) ← best_fit tasks2 sf1;
   Ok (tasks1' ++ tasks2', sf2)).
Proof.
  induction tasks1 as [|x rest IH]; intros tasks2 sf; simpl.
  - destruct (best_fit tasks2 sf) as [[t2 sf2]|e]; reflexivity.
  - destruct (best_fit_task x sf) as [[x' sf']|e]; simpl; [|reflexivity].
    rewrite IH.
    destruct (best_fit rest sf') as [[r' sf1]|e]; simpl; [|reflexivity].
    destruct (best_fit tasks2 sf1) as [[t2 sf2]|e]; reflexivity.
Qed.

(** X2. Allocating a task list in one call is allocating a first part of it
    and then the rest on the profile the first part left: the placements are
    those of the two calls, one after the other, and the final profile is
    that of the second call.  This holds for the three heuristics. *)
Theorem allocation_in_batches hr tasks1 tasks2 sf :
  exists tasks1' sf1 tasks2' sf2,
    allocate hr tasks1 sf = Ok (tasks1', sf1) /\
    allocate hr tasks2 sf1 = Ok (tasks2', sf2) /\
    allocate hr (tasks1 ++ tasks2) sf = Ok (tasks1' ++ tasks2', sf2).
Proof.
  destruct (allocate_run hr tasks1 sf) as (tasks1' & sf1 & H1 & _).
  destruct (allocate_run hr tasks2 sf1) as (tasks2' & sf2 & H2 & _).
  exists tasks1', sf1, tasks2', sf2. split; [exact H1|]. split; [exact H2|].
  destruct hr; simpl in *.
  - rewrite first_fit_app, H1. simpl. rewrite H2. reflexivity.
  - unfold next_fit in *. rewrite next_fit_loop_first_fit in *.
    rewrite first_fit_app, H1. simpl. rewrite H2. reflexivity.
  - rewrite best_fit_app, H1. simpl. rewrite H2. reflexivity.
Qed.

(** ** The energy a run takes from the profile *)

Lemma py_sum_acc l : forall a, fold_left Z.add l a = a + py_sum l.
Proof.
  unfold py_sum. induction l as [|v l IH]; intros a; cbn [fold_left]; [lia|].
  rewrite (IH (a + v)), (IH (0 + v)). lia.
Qed.

Lemma py_sum_cons v l : py_sum (v :: l) = v + py_sum l.
Proof. unfold py_sum at 1. cbn [fold_left]. rewrite py_sum_acc. lia. Qed.

Lemma py_sum_app l1 l2 : py_sum (l1 ++ l2) = py_sum l1 + py_sum l2.
Proof.
  induction l1 as [|v l1 IH]; simpl.
  - reflexivity.
  - rewrite !py_sum_cons, IH. lia.
Qed.

Lemma py_sum_nonneg l : Forall (fun v => 0 <= v) l -> 0 <= py_sum l.
Proof.
  induction 1 as [|v l Hv Hl IH]; [reflexivity|]. rewrite py_sum_cons. lia.
Qed.

Lemma py_sum_insert sf (i : nat) v u :
  sf !! i = Some v -> py_sum (<[i := u]> sf) = py_sum sf - v + u.
Proof.
  intros Hv. pose proof (lookup_lt_Some _ _ _ Hv) as Hlt.
  rewrite insert_take_drop by exact Hlt.
  rewrite <- (take_drop_middle sf i v Hv) at 3.
  rewrite !py_sum_app, !py_sum_cons. lia.
Qed.

Lemma dec_window_single sf t h v :
  0 <= t -> sf !! Z.to_nat t = Some v ->
  dec_window sf t t h = <[Z.to_nat t := v - h]> sf.
Proof.
  intros H0 Hv. pose proof (lookup_lt_Some _ _ _ Hv) as Hlt.
  assert (Hspec : isub_item sf t h = Ok (dec_window sf t t h))
    by (apply isub_item_spec; lia).
  unfold isub_item in Hspec. rewrite py_index_in_range in Hspec by lia.
  simpl in Hspec. unfold mbind, result_bind in Hspec. rewrite Hv in Hspec.
  injection Hspec as <-. reflexivity.
Qed.

Lemma py_sum_dec_window n : forall sf t h,
  0 <= t -> t + Z.of_nat n <= Z.of_nat (length sf) ->
  py_sum (dec_window sf t (t + Z.of_nat n - 1) h) = py_sum sf - Z.of_nat n * h.
Proof.
  induction n as [|n IH]; intros sf t h H0 Hlen.
  - rewrite dec_window_empty by lia. simpl. lia.
  - destruct (lookup_lt_is_Some_2 sf (Z.to_nat t)) as [v Hv]; [lia|].
    rewrite <- dec_window_step by lia.
    replace (t + Z.of_nat (S n) - 1) with (t + 1 + Z.of_nat n - 1) by lia.
    rewrite IH by (rewrite ?dec_window_length; lia).
    rewrite (dec_window_single sf t h v H0 Hv), (py_sum_insert _ _ v) by exact Hv.
    lia.
Qed.

Lemma py_sum_feasible_window sf h w s :
  feasible sf h w s ->
  py_sum (dec_window sf s (s + w - 1) h) = py_sum sf - w * h.
Proof.
  intros Hf. destruct (feasible_bounds _ _ _ _ Hf) as (H0 & Hlen & Hw).
  pose proof (py_sum_dec_window (Z.to_nat w) sf s h H0 ltac:(lia)) as Hsum.
  rewrite Z2Nat.id in Hsum by lia. exact Hsum.
Qed.

Lemma total_area_acc tasks : forall a,
  fold_left (fun acc x => acc + width x * height x) tasks a = a + total_area tasks.
Proof.
  unfold total_area. induction tasks as [|x l IH]; intros a; cbn [fold_left]; [lia|].
  rewrite (IH (a + width x * height x)), (IH (0 + width x * height x)). lia.
Qed.

Lemma total_area_cons x tasks :
  total_area (x :: tasks) = width x * height x + total_area tasks.
Proof. unfold total_area at 1. cbn [fold_left]. rewrite total_area_acc. lia. Qed.

Lemma first_fit_steps_run tasks : forall sf,
  exists tasks' sf',
    first_fit tasks sf = Ok (tasks', sf') /\ first_fit_steps tasks sf tasks' sf'.
Proof.
  induction tasks as [|x rest IH]; intros sf; simpl.
  - exists [], sf. split; [reflexivity|constructor].
  - destruct (first_fit_task_cases x sf) as [[-> Hnone] | (s & Hf & Hmin & ->)]; simpl.
    + destruct (IH sf) as (rest' & sf' & -> & Hrun). simpl.
      exists (x :: rest'), sf'. split; [reflexivity|].
      apply ff_skip; assumption.
    + destruct (IH (dec_window sf s (s + width x - 1) (height x)))
        as (rest' & sf' & -> & Hrun). simpl.
      eexists _, sf'. split; [reflexivity|].
      apply ff_place; assumption.
Qed.

Lemma first_fit_steps_energy tasks sf tasks' sf' :
  first_fit_steps tasks sf tasks' sf' ->
  Forall unplaced tasks ->
  py_sum sf - py_sum sf' = placed_area tasks'.
Proof.
  induction 1 as [sf | x rest sf rest' sf' Hnone Hrun IH
                     | x rest sf s rest' sf' Hf Hmin Hrun IH]; intros Hun.
  - simpl. lia.
  - apply Forall_cons in Hun as [[Hs _] Hrest].
    simpl. rewrite Hs. simpl. apply IH, Hrest.
  - apply Forall_cons in Hun as [_ Hrest].
    specialize (IH Hrest). rewrite py_sum_feasible_window in IH by exact Hf.
    destruct (feasible_bounds _ _ _ _ Hf) as (H0 & _ & _).
    simpl. destruct (Z.eqb_spec s (-1)); lia.
Qed.

(** X3. On tasks as the constructor leaves them, [first_fit] and [next_fit]
    take from the profile exactly the area of the tasks they give a start:
    the sum of the profile drops by the sum of width * height over the tasks
    whose [start_time] is no longer -1. *)
Theorem first_fit_energy_accounting tasks sf :
  Forall unplaced tasks ->
  exists tasks' sf',
    first_fit tasks sf = Ok (tasks', sf') /\
    next_fit tasks sf = Ok (tasks', sf') /\
    py_sum sf - py_sum sf' = placed_area tasks'.
Proof.
  intros Hun.
  destruct (first_fit_steps_run tasks sf) as (tasks' & sf' & Hff & Hsteps).
  exists tasks', sf'. split; [exact Hff|]. split.
  - unfold next_fit. rewrite next_fit_loop_first_fit. exact Hff.
  - apply (first_fit_steps_energy _ _ _ _ Hsteps Hun).
Qed.

Lemma first_fit_energy_accounting_witness :
  Forall unplaced [new_task 3 5; new_task 2 4; new_task 4 1] /\
  exists tasks' sf',
    first_fit [new_task 3 5; new_task 2 4; new_task 4 1] [5;5;5;0;0;5;5;5] = Ok (tasks', sf') /\
    next_fit [new_task 3 5; new_task 2 4; new_task 4 1] [5;5;5;0;0;5;5;5] = Ok (tasks', sf') /\
    py_sum [5;5;5;0;0;5;5;5] - py_sum sf' = placed_area tasks'.
Proof.
  assert (H : Forall unplaced [new_task 3 5; new_task 2 4; new_task 4 1])
    by (repeat constructor; reflexivity).
  split; [exact H|].
  exact (first_fit_energy_accounting
           [new_task 3 5; new_task 2 4; new_task 4 1] [5;5;5;0;0;5;5;5] H).
Defined.

Lemma run_steps_energy tasks sf tasks' sf' :
  run_steps tasks sf tasks' sf' ->
  Forall (fun x => 0 <= width x /\ 0 <= height x) tasks ->
  0 <= py_sum sf - py_sum sf' <= total_area tasks.
Proof.
  induction 1 as [sf | x rest sf x' sf' rest' sf'' Hstep Hrun IH]; intros Hdim.
  - unfold total_area. simpl. lia.
  - apply Forall_cons in Hdim as [[Hw Hh] Hrest]. specialize (IH Hrest).
    rewrite total_area_cons.
    destruct Hstep as [(_ & -> & _) | (s & start & Hf & _ & _ & ->)].
    + nia.
    + rewrite py_sum_feasible_window in IH by exact Hf. nia.
Qed.

(** X4. When no task has a negative width or height and the profile has no
    negative entry, the energy a heuristic takes from the profile is at
    least 0 and at most the lesser of the total task area and the energy the
    profile held. *)
Theorem allocation_energy_bounds hr tasks sf :
  Forall (fun x => 0 <= width x /\ 0 <= height x) tasks ->
  Forall (fun v => 0 <= v) sf ->
  exists tasks' sf',
    allocate hr tasks sf = Ok (tasks', sf') /\
    0 <= py_sum sf - py_sum sf' <= py_min (total_area tasks) (py_sum sf).
Proof.
  intros Hdim Hsf.
  destruct (allocate_run hr tasks sf) as (tasks' & sf' & Halloc & Hrun).
  exists tasks', sf'. split; [exact Halloc|].
  pose proof (run_steps_energy _ _ _ _ Hrun Hdim) as Hen.
  destruct (run_steps_nonneg _ _ _ _ Hrun Hsf) as [Hnn _].
  apply py_sum_nonneg in Hnn. rewrite py_min_min. lia.
Qed.

Lemma allocation_energy_bounds_witness :
  Forall (fun x => 0 <= width x /\ 0 <= height x) [new_task 3 5; new_task 2 4] /\
  Forall (fun v => 0 <= v) [5;5;5;0;0;5;5;5] /\
  exists tasks' sf',
    allocate BestFit [new_task 3 5; new_task 2 4] [5;5;5;0;0;5;5;5] = Ok (tasks', sf') /\
    0 <= py_sum [5;5;5;0;0;5;5;5] - py_sum sf' <=
      py_min (total_area [new_task 3 5; new_task 2 4]) (py_sum [5;5;5;0;0;5;5;5]).
Proof.
  assert (H1 : Forall (fun x => 0 <= width x /\ 0 <= height x) [new_task 3 5; new_task 2 4])
    by (repeat constructor; simpl; lia).
  assert (H2 : Forall (fun v => 0 <= v) [5;5;5;0;0;5;5;5])
    by (repeat constructor; lia).
  split; [exact H1|]. split; [exact H2|].
  exact (allocation_energy_bounds BestFit
           [new_task 3 5; new_task 2 4] [5;5;5;0;0;5;5;5] H1 H2).
Defined.

Lemma total_area_perm l l' : l ≡ₚ l' -> total_area l = total_area l'.
Proof.
  induction 1 as [|x l l' _ IH|x y l|l l' l'' _ IH1 _ IH2].
  - reflexivity.
  - rewrite !total_area_cons, IH. reflexivity.
  - rewrite !total_area_cons. lia.
  - congruence.
Qed.

(** ** The heuristics on typed slots *)

Lemma num_sub_float v h : num_sub v (NpFloat h) = NpFloat (num_value v - h).
Proof. destruct v; reflexivity. Qed.

Lemma num_value_add a b : num_value (num_add a b) = num_value a + num_value b.
Proof. destruct a, b; reflexivity. Qed.

Lemma num_value_sub a b : num_value (num_sub a b) = num_value a - num_value b.
Proof. destruct a, b; reflexivity. Qed.

Lemma num_value_min a b : num_value (num_min a b) = py_min (num_value a) (num_value b).
Proof. unfold num_min, py_min. destruct (num_value b <? num_value a); reflexivity. Qed.

Lemma dec_window_np_length sf t1 t2 h : length (dec_window_np sf t1 t2 h) = length sf.
Proof. unfold dec_window_np. apply length_imap. Qed.

Lemma dec_window_np_lookup sf t1 t2 h (j : nat) :
  dec_window_np sf t1 t2 h !! j =
  (fun v => if (t1 <=? Z.of_nat j) && (Z.of_nat j <=? t2)
            then NpFloat (num_value v - h) else v) <$> sf !! j.
Proof. unfold dec_window_np. apply list_lookup_imap. Qed.

Lemma dec_window_np_empty sf t1 t2 h : t2 < t1 -> dec_window_np sf t1 t2 h = sf.
Proof.
  intros Hlt. apply list_eq. intros j. rewrite dec_window_np_lookup.
  destruct (sf !! j) as [v|]; simpl; [|reflexivity].
  destruct (Z.leb_spec t1 (Z.of_nat j)), (Z.leb_spec (Z.of_nat j) t2); simpl;
    try reflexivity; lia.
Qed.

Lemma dec_window_np_values sf t1 t2 h :
  num_value <$> dec_window_np sf t1 t2 h = dec_window (num_value <$> sf) t1 t2 h.
Proof.
  apply list_eq. intros j.
  rewrite list_lookup_fmap, dec_window_np_lookup, dec_window_lookup, list_lookup_fmap.
  destruct (sf !! j) as [v|]; simpl; [|reflexivity].
  destruct ((t1 <=? Z.of_nat j) && (Z.of_nat j <=? t2)); reflexivity.
Qed.

Lemma isub_item_np_spec sf t h :
  0 <= t < Z.of_nat (length sf) ->
  isub_item_np sf t h = Ok (dec_window_np sf t t h).
Proof.
  intros Ht. unfold isub_item_np. rewrite py_index_in_range by lia. simpl.
  destruct (lookup_lt_is_Some_2 sf (Z.to_nat t)) as [v Hv]; [lia|].
  unfold mbind, result_bind. rewrite Hv, num_sub_float. f_equal.
  apply list_eq. intros j. rewrite dec_window_np_lookup.
  destruct (decide (j = Z.to_nat t)) as [->|Hne].
  - rewrite list_lookup_insert_eq by lia. rewrite Hv. simpl.
    destruct (Z.leb_spec t (Z.of_nat (Z.to_nat t))); [|lia].
    destruct (Z.leb_spec (Z.of_nat (Z.to_nat t)) t); [|lia]. reflexivity.
  - rewrite list_lookup_insert_ne by congruence.
    destruct (sf !! j) as [u|]; simpl; [|reflexivity].
    destruct (Z.leb_spec t (Z.of_nat j)), (Z.leb_spec (Z.of_nat j) t); simpl;
      try reflexivity; lia.
Qed.

Lemma dec_window_np_step sf t t2 h :
  0 <= t -> t <= t2 ->
  dec_window_np (dec_window_np sf t t h) (t + 1) t2 h = dec_window_np sf t t2 h.
Proof.
  intros H0 Hle. apply list_eq. intros j. rewrite !dec_window_np_lookup.
  destruct (sf !! j) as [v|]; simpl; [|reflexivity]. f_equal.
  destruct (Z.leb_spec t (Z.of_nat j)), (Z.leb_spec (Z.of_nat j) t),
    (Z.leb_spec (t + 1) (Z.of_nat j)), (Z.leb_spec (Z.of_nat j) t2); simpl;
    try reflexivity; lia.
Qed.

Lemma isub_range_np_spec n : forall sf t h,
  0 <= t -> t + Z.of_nat n <= Z.of_nat (length sf) ->
  isub_range_np n t h sf = Ok (dec_window_np sf t (t + Z.of_nat n - 1) h).
Proof.
  induction n as [|n IH]; intros sf t h H0 Hlen; simpl isub_range_np.
  - rewrite dec_window_np_empty by lia. reflexivity.
  - rewrite isub_item_np_spec by lia. rewrite bind_Ok.
    rewrite IH by (rewrite ?dec_window_np_length; lia).
    destruct n as [|n'].
    + rewrite dec_window_np_empty by lia. do 2 f_equal. lia.
    + rewrite dec_window_np_step by lia. do 2 f_equal. lia.
Qed.

Lemma subtract_window_np_spec sf t1 t2 h :
  0 <= t1 -> t1 <= t2 -> t2 < Z.of_nat (length sf) ->
  subtract_window_np sf t1 t2 h = Ok (dec_window_np sf t1 t2 h).
Proof.
  intros H0 Hle Hlen. unfold subtract_window_np.
  rewrite isub_range_np_spec by lia. do 2 f_equal. lia.
Qed.

(** The tail the three loop bodies share, on typed slots. *)
Lemma placement_np_step x sf r1 r2 start :
  scan_outcome (num_value <$> sf) (height x) (width x) r1 r2 ->
  exists sf',
    (if negb (r1 =? -1) && negb (r2 =? -1)
     then sf' ← subtract_window_np sf r1 r2 (height x);
          Ok (set_times x start (start + width x - 1), sf')
     else Ok (x, sf)) =
    Ok (if negb (r1 =? -1) && negb (r2 =? -1)
        then set_times x start (start + width x - 1) else x, sf') /\
    task_step_np x sf
      (if negb (r1 =? -1) && negb (r2 =? -1)
       then set_times x start (start + width x - 1) else x) sf'.
Proof.
  intros [[-> Hnone] | (Hr1 & Hr2 & -> & Hf & Hmin)].
  - rewrite andb_false_r. exists sf. split; [reflexivity|]. left. auto.
  - destruct (Z.eqb_spec r1 (-1)); [contradiction|].
    destruct (Z.eqb_spec (r1 + width x - 1) (-1)); [contradiction|]. simpl.
    destruct (feasible_bounds _ _ _ _ Hf) as (H0 & Hlen & Hw).
    rewrite length_fmap in Hlen.
    rewrite subtract_window_np_spec by lia. simpl.
    eexists. split; [reflexivity|]. right. exists r1, start. auto.
Qed.

Lemma first_fit_task_np_step x sf :
  exists x' sf', first_fit_task_np x sf = Ok (x', sf') /\ task_step_np x sf x' sf'.
Proof.
  unfold first_fit_task_np.
  destruct (first_fit_scan_spec (num_value <$> sf) (height x) (width x))
    as (r1 & r2 & -> & Hout).
  destruct (placement_np_step x sf r1 r2 r1 Hout) as (sf' & Heq & Hstep).
  assert (Hend : r2 = -1 \/ r2 = r1 + width x - 1).
  { destruct Hout as [[-> _] | (_ & _ & -> & _)]; [left|right]; reflexivity. }
  destruct Hend as [-> | ->].
  - rewrite andb_false_r in *. eauto.
  - eauto.
Qed.

Lemma next_fit_task_np_step x sf it_begin_prev :
  exists x' sf' it_begin,
    next_fit_task_np x sf it_begin_prev = Ok (x', sf', it_begin) /\
    task_step_np x sf x' sf'.
Proof.
  unfold next_fit_task_np.
  rewrite py_slice_from_0, py_slice_to_0, next_fit_scan_first_fit_scan.
  destruct (first_fit_scan_spec (num_value <$> sf) (height x) (width x))
    as (r1 & r2 & -> & Hout).
  assert (Hwrap : (if (r1 =? -1) || (r2 =? -1)
                   then next_fit_scan (height x) (width x) [] 0 r1 r2
                   else (r1, r2)) = (r1, r2)).
  { simpl. destruct ((r1 =? -1) || (r2 =? -1)); reflexivity. }
  rewrite Hwrap.
  destruct (placement_np_step x sf r1 r2 r1 Hout) as (sf' & Heq & Hstep).
  assert (Hend : r2 = -1 \/ r2 = r1 + width x - 1).
  { destruct Hout as [[-> _] | (_ & _ & -> & _)]; [left|right]; reflexivity. }
  destruct Hend as [-> | ->].
  - rewrite andb_false_r in *. injection Heq as <-. simpl.
    eexists _, _, _. split; [reflexivity|exact Hstep].
  - rewrite Heq. simpl. eexists _, _, _. split; [reflexivity|exact Hstep].
Qed.

Lemma best_fit_task_np_step x sf :
  exists x' sf', best_fit_task_np x sf = Ok (x', sf') /\ task_step_np x sf x' sf'.
Proof.
  unfold best_fit_task_np.
  pose proof (best_fit_scan_window (height x) (width x) (num_value <$> sf)
                0 (-1) (-1) 0 0 (-1)) as Hwin.
  destruct (best_fit_scan (height x) (width x) (num_value <$> sf) 0 (-1) (-1) 0 0 (-1))
    as [[t1 t2] bp].
  simpl in Hwin.
  destruct (first_fit_scan_spec (num_value <$> sf) (height x) (width x))
    as (r1 & r2 & Hscan & Hout).
  rewrite <- Hwin in Hscan. injection Hscan as -> ->.
  destruct (placement_np_step x sf r1 r2 bp Hout) as (sf' & Heq & Hstep).
  rewrite Heq. eauto.
Qed.

Lemma first_fit_np_run tasks : forall sf,
  exists tasks' sf',
    first_fit_np tasks sf = Ok (tasks', sf') /\ run_steps_np tasks sf tasks' sf'.
Proof.
  induction tasks as [|x rest IH]; intros sf; simpl.
  - exists [], sf. split; [reflexivity|constructor].
  - destruct (first_fit_task_np_step x sf) as (x' & sf1 & -> & Hstep). simpl.
    destruct (IH sf1) as (rest' & sf' & -> & Hrun). simpl.
    exists (x' :: rest'), sf'. split; [reflexivity|].
    econstructor; eassumption.
Qed.

Lemma next_fit_np_run tasks : forall sf it_begin,
  exists tasks' sf',
    next_fit_np_loop tasks sf it_begin = Ok (tasks', sf') /\
    run_steps_np tasks sf tasks' sf'.
Proof.
  induction tasks as [|x rest IH]; intros sf it_begin; simpl.
  - exists [], sf. split; [reflexivity|constructor].
  - destruct (next_fit_task_np_step x sf it_begin) as (x' & sf1 & it' & -> & Hstep). simpl.
    destruct (IH sf1 it') as (rest' & sf' & -> & Hrun). simpl.
    exists (x' :: rest'), sf'. split; [reflexivity|].
    econstructor; eassumption.
Qed.

Lemma best_fit_np_run tasks : forall sf,
  exists tasks' sf',
    best_fit_np tasks sf = Ok (tasks', sf') /\ run_steps_np tasks sf tasks' sf'.
Proof.
  induction tasks as [|x rest IH]; intros sf; simpl.
  - exists [], sf. split; [reflexivity|constructor].
  - destruct (best_fit_task_np_step x sf) as (x' & sf1 & -> & Hstep). simpl.
    destruct (IH sf1) as (rest' & sf' & -> & Hrun). simpl.
    exists (x' :: rest'), sf'. split; [reflexivity|].
    econstructor; eassumption.
Qed.

Lemma allocate_np_run hr tasks sf :
  exists tasks' sf',
    allocate_np hr tasks sf = Ok (tasks', sf') /\ run_steps_np tasks sf tasks' sf'.
Proof.
  destruct hr; simpl.
  - apply first_fit_np_run.
  - apply next_fit_np_run.
  - apply best_fit_np_run.
Qed.

(** The heuristics on typed slots make the placements, and leave the slot
    values, of the heuristics on plain values. *)
Lemma placement_np_values (x : task) (sf : list number) (r1 r2 s e : Z) :
  scan_outcome (num_value <$> sf) (height x) (width x) r1 r2 ->
  exists (x' : task) (sf' : list number),
    (if negb (r1 =? -1) && negb (r2 =? -1)
     then sf' ← subtract_window_np sf r1 r2 (height x); Ok (set_times x s e, sf')
     else Ok (x, sf)) = Ok (x', sf') /\
    (if negb (r1 =? -1) && negb (r2 =? -1)
     then sf' ← subtract_window (num_value <$> sf) r1 r2 (height x);
          Ok (set_times x s e, sf')
     else Ok (x, num_value <$> sf)) = Ok (x', num_value <$> sf').
Proof.
  intros [[-> Hnone] | (Hr1 & Hr2 & -> & Hf & Hmin)].
  - rewrite andb_false_r. eauto.
  - destruct (Z.eqb_spec r1 (-1)); [contradiction|].
    destruct (Z.eqb_spec (r1 + width x - 1) (-1)); [contradiction|]. simpl.
    destruct (feasible_bounds _ _ _ _ Hf) as (H0 & Hlen & Hw).
    rewrite subtract_window_spec by lia.
    rewrite length_fmap in Hlen.
    rewrite subtract_window_np_spec by lia. simpl.
    eexists _, _. split; [reflexivity|]. rewrite dec_window_np_values. reflexivity.
Qed.

Lemma first_fit_np_values tasks : forall sf,
  exists tasks' sf',
    first_fit_np tasks sf = Ok (tasks', sf') /\
    first_fit tasks (num_value <$> sf) = Ok (tasks', num_value <$> sf').
Proof.
  induction tasks as [|x rest IH]; intros sf; simpl; [eauto|].
  unfold first_fit_task_np, first_fit_task.
  destruct (first_fit_scan_spec (num_value <$> sf) (height x) (width x))
    as (r1 & r2 & -> & Hout).
  destruct (placement_np_values x sf r1 r2 r1 r2 Hout) as (x' & sf1 & -> & ->). simpl.
  destruct (IH sf1) as (rest' & sf' & -> & ->). simpl. eauto.
Qed.

Lemma best_fit_np_values tasks : forall sf,
  exists tasks' sf',
    best_fit_np tasks sf = Ok (tasks', sf') /\
    best_fit tasks (num_value <$> sf) = Ok (tasks', num_value <$> sf').
Proof.
  induction tasks as [|x rest IH]; intros sf; simpl; [eauto|].
  unfold best_fit_task_np, best_fit_task.
  pose proof (best_fit_scan_window (height x) (width x) (num_value <$> sf)
                0 (-1) (-1) 0 0 (-1)) as Hwin.
  destruct (best_fit_scan (height x) (width x) (num_value <$> sf) 0 (-1) (-1) 0 0 (-1))
    as [[t1 t2] bp].
  simpl in Hwin.
  destruct (first_fit_scan_spec (num_value <$> sf) (height x) (width x))
    as (r1 & r2 & Hscan & Hout).
  rewrite <- Hwin in Hscan. injection Hscan as -> ->.
  destruct (placement_np_values x sf r1 r2 bp (bp + width x - 1) Hout)
    as (x' & sf1 & -> & ->). simpl.
  destruct (IH sf1) as (rest' & sf' & -> & ->). simpl. eauto.
Qed.

Lemma next_fit_np_values tasks : forall sf it_begin,
  exists tasks' sf',
    next_fit_np_loop tasks sf it_begin = Ok (tasks', sf') /\
    next_fit_loop tasks (num_value <$> sf) it_begin = Ok (tasks', num_value <$> sf').
Proof.
  induction tasks as [|x rest IH]; intros sf it_begin; simpl; [eauto|].
  unfold next_fit_task_np, next_fit_task.
  rewrite py_slice_from_0, py_slice_to_0.
  destruct (next_fit_scan (height x) (width x) (num_value <$> sf) 0 (-1) (-1))
    as [t1 t2] eqn:Hscan.
  rewrite next_fit_scan_first_fit_scan in Hscan.
  destruct (first_fit_scan_spec (num_value <$> sf) (height x) (width x))
    as (r1 & r2 & Hspec & Hout).
  rewrite Hscan in Hspec. injection Hspec as -> ->.
  assert (Hwrap : (if (r1 =? -1) || (r2 =? -1)
                   then next_fit_scan (height x) (width x) [] 0 r1 r2
                   else (r1, r2)) = (r1, r2)).
  { simpl. destruct ((r1 =? -1) || (r2 =? -1)); reflexivity. }
  rewrite Hwrap.
  destruct (placement_np_values x sf r1 r2 r1 r2 Hout) as (x' & sf1 & -> & ->). simpl.
  rewrite length_fmap.
  destruct (IH sf1 (if r2 =? Z.of_nat (length sf1) then 0 else r2 + 1))
    as (rest' & sf' & -> & ->). simpl. eauto.
Qed.

Lemma allocate_np_values hr tasks sf :
  exists tasks' sf',
    allocate_np hr tasks sf = Ok (tasks', sf') /\
    allocate hr tasks (num_value <$> sf) = Ok (tasks', num_value <$> sf').
Proof.
  destruct hr; simpl.
  - apply first_fit_np_values.
  - apply next_fit_np_values.
  - apply best_fit_np_values.
Qed.

(** A run on typed slots is a run on their values. *)
Lemma run_steps_np_values tasks sf tasks' sf' :
  run_steps_np tasks sf tasks' sf' ->
  run_steps tasks (num_value <$> sf) tasks' (num_value <$> sf').
Proof.
  induction 1 as [sf | x rest sf x' sf' rest' sf'' Hstep Hrun IH]; [constructor|].
  econstructor; [|exact IH].
  destruct Hstep as [(-> & -> & Hnone) | (s & start & Hf & Hmin & -> & ->)].
  - left. auto.
  - right. exists s, start. rewrite dec_window_np_values. auto.
Qed.

Lemma run_steps_np_skipped tasks sf tasks' sf' :
  run_steps_np tasks sf tasks' sf' ->
  Forall (fun x => forall s, ~ feasible (num_value <$> sf) (height x) (width x) s) tasks ->
  tasks' = tasks /\ sf' = sf.
Proof.
  induction 1 as [sf | x rest sf x' sf' rest' sf'' Hstep Hrun IH]; intros Hall.
  - split; reflexivity.
  - apply Forall_cons in Hall as [Hx Hrest].
    destruct Hstep as [(-> & -> & _) | (s & start & Hf & _)]; [|destruct (Hx s Hf)].
    destruct (IH Hrest) as [-> ->]. split; reflexivity.
Qed.

(** ** The efficacy of a trial *)

Lemma num_sum_acc l : forall a,
  num_value (fold_left num_add l a) = num_value a + py_sum (num_value <$> l).
Proof.
  induction l as [|v l IH]; intros a; cbn [fold_left fmap list_fmap].
  - unfold py_sum. simpl. lia.
  - rewrite IH, num_value_add, py_sum_cons. lia.
Qed.

Lemma num_value_sum l : num_value (num_sum l) = py_sum (num_value <$> l).
Proof. unfold num_sum. rewrite num_sum_acc. simpl. lia. Qed.

Lemma num_sum_ints l : num_sum (PyInt <$> l) = PyInt (py_sum l).
Proof.
  unfold num_sum.
  assert (Hacc : forall a, fold_left num_add (PyInt <$> l) (PyInt a) = PyInt (a + py_sum l)).
  { induction l as [|v l IH]; intros a; cbn [fold_left fmap list_fmap].
    - unfold py_sum. simpl. f_equal. lia.
    - simpl num_add. rewrite IH, py_sum_cons. f_equal. lia. }
  rewrite Hacc. f_equal.
Qed.

Lemma num_value_ints (l : list Z) : num_value <$> (PyInt <$> l) = l.
Proof.
  apply list_eq. intros j. rewrite !list_lookup_fmap.
  destruct (l !! j); reflexivity.
Qed.

Lemma total_area_number_float tasks : forall a,
  fold_left (fun acc x => num_add acc (NpFloat (width x * height x))) tasks (NpFloat a) =
  NpFloat (a + total_area tasks).
Proof.
  induction tasks as [|x l IH]; intros a; cbn [fold_left].
  - unfold total_area. simpl. f_equal. lia.
  - simpl num_add. rewrite IH, total_area_cons. f_equal. lia.
Qed.

Lemma total_area_number_cons x tasks :
  total_area_number (x :: tasks) = NpFloat (total_area (x :: tasks)).
Proof.
  unfold total_area_number. cbn [fold_left]. simpl num_add.
  rewrite total_area_number_float, total_area_cons. f_equal; lia.
Qed.

Lemma num_value_total_area tasks : num_value (total_area_number tasks) = total_area tasks.
Proof.
  destruct tasks as [|x l]; [reflexivity|]. rewrite total_area_number_cons. reflexivity.
Qed.

Lemma py_truediv_nonzero a b :
  num_value b <> 0 ->
  py_truediv a b = Ok (Finite (inject_Z (num_value a) / inject_Z (num_value b))).
Proof.
  intros Hb. destruct a as [x|x], b as [y|y]; simpl in *;
    destruct (Z.eqb_spec y 0); try contradiction; reflexivity.
Qed.

Lemma py_truediv_float_zero a :
  num_value a = 0 -> py_truediv a (NpFloat 0) = Ok NaN.
Proof. intros Ha. destruct a as [x|x]; simpl in *; rewrite Ha; reflexivity. Qed.

(** What a trial computes, and the bounds on the energy the run took. *)
Lemma trial_run o hr sf tasks :
  exists remaining_energy,
    trial o hr sf tasks =
      efficacy (PyInt (py_sum sf)) remaining_energy (total_area_number tasks) /\
    (Forall (fun x => 0 <= width x /\ 0 <= height x) tasks ->
     Forall (fun v => 0 <= v) sf ->
     0 <= py_sum sf - num_value remaining_energy <= total_area tasks /\
     0 <= num_value remaining_energy) /\
    (Forall (fun x => forall s, ~ feasible sf (height x) (width x) s) tasks ->
     remaining_energy = PyInt (py_sum sf)).
Proof.
  unfold trial. rewrite num_sum_ints.
  assert (Hperm : sort_tasks o tasks ≡ₚ tasks) by apply list_sort_perm.
  destruct (allocate_np_run hr (sort_tasks o tasks) (PyInt <$> sf))
    as (tasks' & sf' & -> & Hrun).
  simpl. exists (num_sum sf'). split; [reflexivity|]. split.
  - intros Hdim Hsf.
    pose proof (run_steps_np_values _ _ _ _ Hrun) as Hvals.
    rewrite num_value_ints in Hvals. rewrite num_value_sum.
    assert (Hdim' : Forall (fun x => 0 <= width x /\ 0 <= height x) (sort_tasks o tasks))
      by (rewrite Hperm; exact Hdim).
    pose proof (run_steps_energy _ _ _ _ Hvals Hdim') as Hen.
    rewrite (total_area_perm _ _ Hperm) in Hen.
    destruct (run_steps_nonneg _ _ _ _ Hvals Hsf) as [Hnn _].
    apply py_sum_nonneg in Hnn. lia.
  - intros Hnone.
    assert (Hnone' : Forall (fun x => forall s,
                ~ feasible (num_value <$> (PyInt <$> sf)) (height x) (width x) s)
              (sort_tasks o tasks)).
    { rewrite num_value_ints, Hperm. exact Hnone. }
    destruct (run_steps_np_skipped _ _ _ _ Hrun Hnone') as [_ ->].
    apply num_sum_ints.
Qed.

Lemma trial_bounds o hr sf tasks :
  Forall (fun x => 0 <= width x /\ 0 <= height x) tasks ->
  Forall (fun v => 0 <= v) sf ->
  0 < py_min (total_area tasks) (py_sum sf) ->
  exists q, trial o hr sf tasks = Ok (Finite q) /\ (0 <= q /\ q <= 1)%Q.
Proof.
  intros Hdim Hsf Hpos.
  destruct (trial_run o hr sf tasks) as (rem & -> & Hbounds & _).
  destruct (Hbounds Hdim Hsf) as [Hen Hrem].
  unfold efficacy.
  set (num := num_sub (PyInt (py_sum sf)) rem).
  set (den := num_min (total_area_number tasks) (PyInt (py_sum sf))).
  assert (Hnum : num_value num = py_sum sf - num_value rem)
    by (unfold num; rewrite num_value_sub; reflexivity).
  assert (Hden : num_value den = py_min (total_area tasks) (py_sum sf))
    by (unfold den; rewrite num_value_min, num_value_total_area; reflexivity).
  rewrite py_truediv_nonzero by lia.
  eexists. split; [reflexivity|].
  assert (Hle : num_value num <= num_value den)
    by (rewrite Hnum, Hden, py_min_min; lia).
  assert (HdenQ : (inject_Z 0 < inject_Z (num_value den))%Q)
    by (rewrite <- Zlt_Qlt; lia).
  split.
  - apply Qle_shift_div_l; [exact HdenQ|].
    rewrite Qmult_0_l. change (inject_Z 0 <= inject_Z (num_value num))%Q.
    rewrite <- Zle_Qle. lia.
  - apply Qle_shift_div_r; [exact HdenQ|].
    rewrite Qmult_1_l. rewrite <- Zle_Qle. exact Hle.
Qed.

Lemma trial_no_area o hr sf tasks :
  tasks <> [] ->
  Forall (fun x => 0 <= width x /\ 0 <= height x) tasks ->
  Forall (fun v => 0 <= v) sf ->
  total_area tasks = 0 ->
  trial o hr sf tasks = Ok NaN.
Proof.
  intros Hne Hdim Hsf Harea.
  destruct (trial_run o hr sf tasks) as (rem & -> & Hbounds & _).
  destruct (Hbounds Hdim Hsf) as [Hen Hrem].
  destruct tasks as [|x rest]; [contradiction|].
  unfold efficacy. rewrite total_area_number_cons, Harea.
  assert (Hsum : 0 <= py_sum sf) by (apply py_sum_nonneg, Hsf).
  unfold num_min. cbn [num_value].
  destruct (Z.ltb_spec (py_sum sf) 0) as [Hlt|_]; [lia|].
  apply py_truediv_float_zero. rewrite num_value_sub. cbn [num_value]. lia.
Qed.

Lemma py_sum_bounds_slot l :
  Forall (fun v => 0 <= v) l -> Forall (fun v => v <= py_sum l) l.
Proof.
  induction 1 as [|v l Hv Hl IH]; [constructor|].
  rewrite py_sum_cons. pose proof (py_sum_nonneg l Hl).
  constructor; [lia|]. eapply Forall_impl; [exact IH|]. simpl. intros u Hu. lia.
Qed.

Lemma trial_dark o hr sf tasks :
  Forall (fun x => 1 <= height x) tasks ->
  Forall (fun v => 0 <= v) sf ->
  py_sum sf = 0 ->
  0 < total_area tasks ->
  trial o hr sf tasks = Raise ZeroDivisionError.
Proof.
  intros Hh Hsf Hsum Harea.
  destruct (trial_run o hr sf tasks) as (rem & -> & _ & Hskip).
  rewrite Hskip.
  - unfold efficacy. rewrite Hsum.
    destruct tasks as [|x rest]; [unfold total_area in Harea; simpl in Harea; lia|].
    rewrite total_area_number_cons. unfold num_min. cbn [num_value].
    destruct (Z.ltb_spec 0 (total_area (x :: rest))) as [_|Hge]; [|lia].
    reflexivity.
  - eapply Forall_impl; [exact Hh|]. intros x Hx. simpl in Hx.
    apply low_profile_infeasible.
    eapply Forall_impl; [exact (py_sum_bounds_slot sf Hsf)|]. simpl. intros v Hv. lia.
Qed.



(** C8. In a trial of the evaluation loop (a task list that is not empty,
    its widths and heights being [np.float64] values that are not negative,
    on a step function of ints that are not negative), when the total task
    area and the original energy are both 0 the efficacy expression yields
    nan: it raises nothing, and it yields no number, 0 included. *)
Theorem efficacy_zero_by_zero_is_nan o hr sf tasks :
  tasks <> [] ->
  Forall (fun x => 0 <= width x /\ 0 <= height x) tasks ->
  Forall (fun v => 0 <= v) sf ->
  total_area tasks = 0 ->
  py_sum sf = 0 ->
  trial o hr sf tasks = Ok NaN /\
  (forall e, trial o hr sf tasks <> Raise e) /\
  (forall q, trial o hr sf tasks <> Ok (Finite q)).
Proof.
  intros Hne Hdim Hsf Harea _.
  rewrite (trial_no_area o hr sf tasks Hne Hdim Hsf Harea).
  split; [reflexivity|]. split; intros ?; discriminate.
Qed.

Lemma efficacy_zero_by_zero_is_nan_witness :
  [new_task 1 0; new_task 0 3] <> [] /\
  Forall (fun x => 0 <= width x /\ 0 <= height x) [new_task 1 0; new_task 0 3] /\
  Forall (fun v => 0 <= v) [0; 0; 0] /\
  total_area [new_task 1 0; new_task 0 3] = 0 /\
  py_sum [0; 0; 0] = 0 /\
  trial OrderArea BestFit [0; 0; 0] [new_task 1 0; new_task 0 3] = Ok NaN.
Proof.
  assert (H0 : [new_task 1 0; new_task 0 3] <> []) by discriminate.
  assert (H1 : Forall (fun x => 0 <= width x /\ 0 <= height x) [new_task 1 0; new_task 0 3])
    by (repeat constructor; simpl; lia).
  assert (H2 : Forall (fun v => 0 <= v) [0; 0; 0]) by (repeat constructor; lia).
  assert (H3 : total_area [new_task 1 0; new_task 0 3] = 0) by reflexivity.
  assert (H4 : py_sum [0; 0; 0] = 0) by reflexivity.
  split; [exact H0|]. split; [exact H1|]. split; [exact H2|].
  split; [exact H3|]. split; [exact H4|].
  exact (proj1 (efficacy_zero_by_zero_is_nan OrderArea BestFit
                  [0; 0; 0] [new_task 1 0; new_task 0 3] H0 H1 H2 H3 H4)).
Defined.

(** X5. In a trial whose tasks have no negative width or height, whose
    profile has no negative entry, and where the lesser of the total task
    area and the profile's energy is positive, the efficacy is a value
    between 0 and 1, for every sort order and every heuristic. *)
Theorem trial_efficacy_in_unit_interval o hr sf tasks :
  Forall (fun x => 0 <= width x /\ 0 <= height x) tasks ->
  Forall (fun v => 0 <= v) sf ->
  0 < py_min (total_area tasks) (py_sum sf) ->
  exists q, trial o hr sf tasks = Ok (Finite q) /\ (0 <= q /\ q <= 1)%Q.
Proof. apply trial_bounds. Qed.

Lemma trial_efficacy_in_unit_interval_witness :
  Forall (fun x => 0 <= width x /\ 0 <= height x) [new_task 3 5; new_task 2 4] /\
  Forall (fun v => 0 <= v) [5;5;5;0;0;5;5;5] /\
  0 < py_min (total_area [new_task 3 5; new_task 2 4]) (py_sum [5;5;5;0;0;5;5;5]) /\
  exists q, trial OrderArea NextFit [5;5;5;0;0;5;5;5] [new_task 3 5; new_task 2 4]
            = Ok (Finite q) /\
            (0 <= q /\ q <= 1)%Q.
Proof.
  assert (H1 : Forall (fun x => 0 <= width x /\ 0 <= height x) [new_task 3 5; new_task 2 4])
    by (repeat constructor; simpl; lia).
  assert (H2 : Forall (fun v => 0 <= v) [5;5;5;0;0;5;5;5])
    by (repeat constructor; lia).
  assert (H3 : 0 < py_min (total_area [new_task 3 5; new_task 2 4]) (py_sum [5;5;5;0;0;5;5;5]))
    by reflexivity.
  split; [exact H1|]. split; [exact H2|]. split; [exact H3|].
  exact (trial_efficacy_in_unit_interval OrderArea NextFit
           [5;5;5;0;0;5;5;5] [new_task 3 5; new_task 2 4] H1 H2 H3).
Defined.

(** ** Placements against the capacity *)

Lemma first_fit_steps_load tasks sf tasks' sf' :
  first_fit_steps tasks sf tasks' sf' ->
  Forall unplaced tasks ->
  forall (j : nat) v, sf !! j = Some v -> sf' !! j = Some (v - load tasks' (Z.of_nat j)).
Proof.
  induction 1 as [sf | x rest sf rest' sf' Hnone Hrun IH
                     | x rest sf s rest' sf' Hf Hmin Hrun IH]; intros Hun j v Hv.
  - simpl. rewrite Hv. f_equal. lia.
  - apply Forall_cons in Hun as [[Hs _] Hrest].
    rewrite (IH Hrest j v Hv). simpl. rewrite Hs. simpl. reflexivity.
  - apply Forall_cons in Hun as [_ Hrest].
    destruct (feasible_bounds _ _ _ _ Hf) as (H0 & _ & _).
    rewrite (IH Hrest j _ ltac:(rewrite dec_window_lookup, Hv; reflexivity)).
    f_equal. simpl.
    destruct (Z.eqb_spec s (-1)); [lia|]. simpl.
    destruct (s <=? Z.of_nat j), (Z.of_nat j <=? s + width x - 1); simpl; lia.
Qed.

(** X6. On tasks as the constructor leaves them, [first_fit] and [next_fit]
    account for every slot: what is left of a slot is what it held minus the
    heights of the tasks placed over it (those with a start whose
    [start_time .. end_time] covers the slot). *)
Theorem first_fit_slot_accounting tasks sf :
  Forall unplaced tasks ->
  exists tasks' sf',
    first_fit tasks sf = Ok (tasks', sf') /\
    next_fit tasks sf = Ok (tasks', sf') /\
    forall (j : nat) v, sf !! j = Some v ->
      sf' !! j = Some (v - load tasks' (Z.of_nat j)).
Proof.
  intros Hun.
  destruct (first_fit_steps_run tasks sf) as (tasks' & sf' & Hff & Hsteps).
  exists tasks', sf'. split; [exact Hff|]. split.
  - unfold next_fit. rewrite next_fit_loop_first_fit. exact Hff.
  - apply (first_fit_steps_load _ _ _ _ Hsteps Hun).
Qed.

Lemma first_fit_slot_accounting_witness :
  Forall unplaced [new_task 3 5; new_task 2 4] /\
  exists tasks' sf',
    first_fit [new_task 3 5; new_task 2 4] [5;5;5;0;0;5;5;5] = Ok (tasks', sf') /\
    next_fit [new_task 3 5; new_task 2 4] [5;5;5;0;0;5;5;5] = Ok (tasks', sf') /\
    forall (j : nat) v, [5;5;5;0;0;5;5;5] !! j = Some v ->
      sf' !! j = Some (v - load tasks' (Z.of_nat j)).
Proof.
  assert (H : Forall unplaced [new_task 3 5; new_task 2 4])
    by (repeat constructor; reflexivity).
  split; [exact H|].
  exact (first_fit_slot_accounting [new_task 3 5; new_task 2 4] [5;5;5;0;0;5;5;5] H).
Defined.

Lemma first_fit_steps_horizon tasks sf tasks' sf' :
  first_fit_steps tasks sf tasks' sf' ->
  Forall unplaced tasks ->
  Forall (fun x' => unplaced x' \/
            (1 <= width x' /\ 0 <= start_time x' /\
             end_time x' = start_time x' + width x' - 1 /\
             end_time x' < Z.of_nat (length sf))) tasks'.
Proof.
  induction 1 as [sf | x rest sf rest' sf' Hnone Hrun IH
                     | x rest sf s rest' sf' Hf Hmin Hrun IH]; intros Hun.
  - constructor.
  - apply Forall_cons in Hun as [Hx Hrest].
    constructor; [left; exact Hx|apply IH, Hrest].
  - apply Forall_cons in Hun as [_ Hrest].
    destruct (feasible_bounds _ _ _ _ Hf) as (H0 & Hlen & Hw).
    constructor.
    + right. simpl. lia.
    + specialize (IH Hrest). rewrite dec_window_length in IH. exact IH.
Qed.

(** X7. On tasks as the constructor leaves them and a profile without a
    negative entry, [first_fit] and [next_fit] overbook no slot: the heights
    of the tasks placed over a slot add up to at most what the slot held.
    Every task they place has a width of at least 1 and lies within the
    profile: 0 <= start_time, end_time = start_time + width - 1 and
    end_time < len(step_function). *)
Theorem first_fit_respects_capacity tasks sf :
  Forall unplaced tasks ->
  Forall (fun v => 0 <= v) sf ->
  exists tasks' sf',
    first_fit tasks sf = Ok (tasks', sf') /\
    next_fit tasks sf = Ok (tasks', sf') /\
    (forall (j : nat) v, sf !! j = Some v -> load tasks' (Z.of_nat j) <= v) /\
    Forall (fun x' => unplaced x' \/
              (1 <= width x' /\ 0 <= start_time x' /\
               end_time x' = start_time x' + width x' - 1 /\
               end_time x' < Z.of_nat (length sf))) tasks'.
Proof.
  intros Hun Hsf.
  destruct (first_fit_steps_run tasks sf) as (tasks' & sf' & Hff & Hsteps).
  exists tasks', sf'. split; [exact Hff|]. split; [|split].
  - unfold next_fit. rewrite next_fit_loop_first_fit. exact Hff.
  - intros j v Hv.
    pose proof (first_fit_steps_load _ _ _ _ Hsteps Hun j v Hv) as Hleft.
    destruct (allocate_run FirstFit tasks sf) as (tasks2 & sf2 & Halloc & Hrun).
    simpl in Halloc. rewrite Hff in Halloc. injection Halloc as <- <-.
    destruct (run_steps_nonneg _ _ _ _ Hrun Hsf) as [Hnn _].
    pose proof (Forall_lookup_1 _ _ _ _ Hnn Hleft) as Hge. simpl in Hge. lia.
  - apply (first_fit_steps_horizon _ _ _ _ Hsteps Hun).
Qed.

Lemma first_fit_respects_capacity_witness :
  Forall unplaced [new_task 3 5; new_task 2 4] /\
  Forall (fun v => 0 <= v) [5;5;5;0;0;5;5;5] /\
  exists tasks' sf',
    first_fit [new_task 3 5; new_task 2 4] [5;5;5;0;0;5;5;5] = Ok (tasks', sf') /\
    next_fit [new_task 3 5; new_task 2 4] [5;5;5;0;0;5;5;5] = Ok (tasks', sf') /\
    (forall (j : nat) v, [5;5;5;0;0;5;5;5] !! j = Some v -> load tasks' (Z.of_nat j) <= v) /\
    Forall (fun x' => unplaced x' \/
              (1 <= width x' /\ 0 <= start_time x' /\
               end_time x' = start_time x' + width x' - 1 /\
               end_time x' < Z.of_nat (length [5;5;5;0;0;5;5;5]))) tasks'.
Proof.
  assert (H1 : Forall unplaced [new_task 3 5; new_task 2 4])
    by (repeat constructor; reflexivity).
  assert (H2 : Forall (fun v => 0 <= v) [5;5;5;0;0;5;5;5])
    by (repeat constructor; lia).
  split; [exact H1|]. split; [exact H2|].
  exact (first_fit_respects_capacity [new_task 3 5; new_task 2 4] [5;5;5;0;0;5;5;5] H1 H2).
Defined.

(** ** When best_fit records the window it takes *)

Lemma scan_inv_reset sf h w pre step l t t1 cs :
  sf = pre ++ step :: l -> t = Z.of_nat (length pre) ->
  scan_inv sf h w t t1 cs -> step < h ->
  scan_inv sf h w (t + 1) (-1) (t + 1).
Proof.
  intros Hsf Ht [Hcs Hrange Hrun Hshort Hbefore] Hlow.
  assert (Hstep : sf !! Z.to_nat t = Some step).
  { rewrite Hsf, Ht, Nat2Z.id. apply list_lookup_middle. reflexivity. }
  split; [reflexivity|lia|intros j v Hj; lia|lia|].
  intros s Hs Hf. destruct (Z.lt_ge_cases s cs) as [Hlt|Hge].
  - exact (Hbefore s Hlt Hf).
  - assert (Hw : 1 <= w) by (destruct Hf as (Hw & _); exact Hw).
    specialize (Hshort Hw).
    pose proof (feasible_needs_slot _ _ _ _ t step Hf ltac:(lia) Hstep). lia.
Qed.

Lemma scan_inv_run sf h w pre step l t t1 cs :
  sf = pre ++ step :: l -> t = Z.of_nat (length pre) ->
  scan_inv sf h w t t1 cs -> h <= step ->
  sf !! Z.to_nat t = Some step /\
  forall j v, cs <= j < t + 1 -> sf !! Z.to_nat j = Some v -> h <= v.
Proof.
  intros Hsf Ht [Hcs Hrange Hrun Hshort Hbefore] Hhigh.
  assert (Hstep : sf !! Z.to_nat t = Some step).
  { rewrite Hsf, Ht, Nat2Z.id. apply list_lookup_middle. reflexivity. }
  split; [exact Hstep|].
  intros j v Hj Hv. destruct (Z.eq_dec j t) as [->|Hne].
  - rewrite Hstep in Hv. injection Hv as <-. lia.
  - apply (Hrun j v); [lia|exact Hv].
Qed.

Lemma scan_inv_extend sf h w pre step l t t1 cs :
  sf = pre ++ step :: l -> t = Z.of_nat (length pre) ->
  scan_inv sf h w t t1 cs -> h <= step -> t - cs <> w - 1 ->
  scan_inv sf h w (t + 1) cs cs.
Proof.
  intros Hsf Ht Hinv Hhigh Hneq.
  destruct (scan_inv_run _ _ _ _ _ _ _ _ _ Hsf Ht Hinv Hhigh) as [_ Hrun'].
  destruct Hinv as [Hcs Hrange Hrun Hshort Hbefore].
  split.
  - destruct (Z.eqb_spec cs (-1)); [lia|reflexivity].
  - lia.
  - exact Hrun'.
  - intros Hw. specialize (Hshort Hw). lia.
  - exact Hbefore.
Qed.

(** The scan of [best_fit] for a task of width at least 1: [cur_area] is 0
    as long as the current run has no slack, and positive from the first slot
    with slack on. *)
Lemma best_fit_scan_inv sf h w : 1 <= w -> forall l pre t t1 cs cur_area,
  sf = pre ++ l -> t = Z.of_nat (length pre) ->
  scan_inv sf h w t t1 cs ->
  0 <= cur_area ->
  (cur_area = 0 <-> forall j v, cs <= j < t -> sf !! Z.to_nat j = Some v -> v = h) ->
  exists r1 r2 best_pos,
    best_fit_scan h w l t t1 (-1) cur_area 0 (-1) = (r1, r2, best_pos) /\
    (r2 = -1 \/
     (r2 = r1 + w - 1 /\
      ((tight sf h w r1 /\ best_pos = -1) \/ (~ tight sf h w r1 /\ best_pos = r1)))).
Proof.
  intros Hw.
  induction l as [|step l IH]; intros pre t t1 cs cur Hsf Ht Hinv Hcur Hzero.
  - simpl. exists t1, (-1), (-1). split; [reflexivity|]. left. reflexivity.
  - assert (Hsf' : sf = (pre ++ [step]) ++ l) by (rewrite <- app_assoc; exact Hsf).
    assert (Ht' : t + 1 = Z.of_nat (length (pre ++ [step]))).
    { rewrite length_app. simpl. lia. }
    simpl. destruct (Z.ltb_spec step h) as [Hlow|Hhigh].
    + apply (IH _ _ _ (t + 1) 0 Hsf' Ht').
      * eapply scan_inv_reset; eassumption.
      * lia.
      * split; [intros _ j v Hj; lia|reflexivity].
    + destruct (scan_inv_run _ _ _ _ _ _ _ _ _ Hsf Ht Hinv Hhigh) as [Hstep Hrun'].
      pose proof (inv_cs _ _ _ _ _ _ Hinv) as Hcs. rewrite <- Hcs.
      pose proof (inv_short _ _ _ _ _ _ Hinv Hw) as Hshort.
      pose proof (inv_range _ _ _ _ _ _ Hinv) as Hrange.
      set (cur1 := if t1 =? -1 then cur + (step - h) else cur).
      assert (Hcur1 : 0 <= cur1) by (unfold cur1; destruct (t1 =? -1); lia).
      assert (Hzero' : cur1 + (step - h) = 0 <->
                forall j v, cs <= j < t + 1 -> sf !! Z.to_nat j = Some v -> v = h).
      { split.
        - intros Hsum j v Hj Hv.
          assert (Hc0 : cur = 0) by (unfold cur1 in *; destruct (t1 =? -1); lia).
          destruct (Z.eq_dec j t) as [->|Hne].
          + rewrite Hstep in Hv. injection Hv as <-. lia.
          + apply (proj1 Hzero Hc0 j v); [lia|exact Hv].
        - intros Hall.
          assert (Hsh : step = h) by (apply (Hall t step); [lia|exact Hstep]).
          assert (Hc0 : cur = 0).
          { apply Hzero. intros j v Hj Hv. apply (Hall j v); [lia|exact Hv]. }
          unfold cur1. destruct (t1 =? -1); lia. }
      destruct (Z.ltb_spec (t - cs) (w - 1)) as [Hlt|Hge].
      * apply (IH _ _ _ cs (cur1 + (step - h)) Hsf' Ht').
        { eapply scan_inv_extend; try eassumption. lia. }
        { lia. }
        { exact Hzero'. }
      * destruct (Z.eqb_spec (t - cs) (w - 1)) as [Heq|Hneq]; [|lia].
        eexists cs, t, _. split; [reflexivity|]. right. split; [lia|].
        destruct (Z.ltb_spec 0 (cur1 + (step - h))) as [Hpos|Hnpos].
        { right. split; [|reflexivity].
          intros Htight. assert (cur1 + (step - h) = 0); [|lia].
          apply Hzero'. intros j v Hj Hv. apply (Htight j v); [lia|exact Hv]. }
        { left. split; [|reflexivity].
          intros j v Hj Hv. apply (proj1 Hzero' ltac:(lia) j v); [lia|exact Hv]. }
Qed.

(** X8. [best_fit] does to a task what [first_fit] does, unless the
    earliest feasible window has no slack at all: then it takes the window
    from the profile like [first_fit] but records start -1 and end
    width - 2. *)
Theorem best_fit_task_against_first_fit x sf :
  (forall s,
      feasible sf (height x) (width x) s ->
      (forall s', s' < s -> ~ feasible sf (height x) (width x) s') ->
      (tight sf (height x) (width x) s ->
       best_fit_task x sf =
         Ok (set_times x (-1) (width x - 2),
             dec_window sf s (s + width x - 1) (height x))) /\
      (~ tight sf (height x) (width x) s ->
       best_fit_task x sf = first_fit_task x sf)) /\
  ((forall s, ~ feasible sf (height x) (width x) s) ->
   best_fit_task x sf = first_fit_task x sf).
Proof.
  split.
  - intros s Hf Hmin.
    destruct (feasible_bounds _ _ _ _ Hf) as (H0 & Hlen & Hw).
    assert (Hff : first_fit_task x sf =
              Ok (set_times x s (s + width x - 1),
                  dec_window sf s (s + width x - 1) (height x))).
    { destruct (first_fit_task_cases x sf) as [[_ Hnone] | (s0 & Hf0 & Hmin0 & ->)];
        [destruct (Hnone s Hf)|].
      assert (s0 = s) as ->; [|reflexivity].
      destruct (Z.lt_trichotomy s0 s) as [Hlt|[Heq|Hgt]]; [|exact Heq|].
      - destruct (Hmin s0 Hlt Hf0).
      - destruct (Hmin0 s Hgt Hf). }
    assert (Hscan : first_fit_scan (height x) (width x) sf 0 (-1) (-1) = (s, s + width x - 1)).
    { rewrite <- (firstn_all sf) at 1.
      rewrite <- (app_nil_r (firstn (length sf) sf)).
      replace (firstn (length sf) sf ++ [])
        with (take (Z.to_nat (s + width x)) sf ++ drop (Z.to_nat (s + width x)) sf).
      - apply first_fit_scan_stops; [exact Hf|].
        intros s' Hf'. destruct (Z.le_gt_cases s s') as [Hle|Hgt]; [exact Hle|].
        destruct (Hmin s' Hgt Hf').
      - rewrite take_drop, app_nil_r, firstn_all. reflexivity. }
    destruct (best_fit_scan_inv sf (height x) (width x) Hw sf [] 0 (-1) 0 0)
      as (r1 & r2 & bp & Hbf & Hres).
    { reflexivity. }
    { reflexivity. }
    { split; [reflexivity|lia|intros; lia|lia|]. intros s' Hs' (_ & H0' & _). lia. }
    { lia. }
    { split; [intros _ j v Hj; lia|reflexivity]. }
    pose proof (best_fit_scan_window (height x) (width x) sf 0 (-1) (-1) 0 0 (-1)) as Hwin.
    rewrite Hbf, Hscan in Hwin. simpl in Hwin. injection Hwin as -> ->.
    unfold best_fit_task. rewrite Hbf.
    destruct (Z.eqb_spec s (-1)); [lia|].
    destruct (Z.eqb_spec (s + width x - 1) (-1)); [lia|]. simpl.
    rewrite subtract_window_spec by lia. simpl.
    destruct Hres as [Hr2 | (_ & [[Ht ->] | [Hnt ->]])]; [lia| |].
    + split; [|intros Hnt; destruct (Hnt Ht)].
      intros _. do 3 f_equal. lia.
    + split; [intros Ht; destruct (Hnt Ht)|].
      intros _. rewrite Hff. reflexivity.
  - intros Hnone.
    destruct (first_fit_task_cases x sf) as [[-> _] | (s & Hf & _)];
      [|destruct (Hnone s Hf)].
    destruct (best_fit_task_cases x sf) as [[-> _] | (s & bp & Hf & _)];
      [reflexivity|destruct (Hnone s Hf)].
Qed.

Lemma best_fit_task_against_first_fit_witness :
  feasible [5;5;5;0;0;5;5;5] 5 3 0 /\
  (forall s', s' < 0 -> ~ feasible [5;5;5;0;0;5;5;5] 5 3 s') /\
  tight [5;5;5;0;0;5;5;5] 5 3 0 /\
  best_fit_task (new_task 3 5) [5;5;5;0;0;5;5;5] =
    Ok (mk_task 3 5 (-1) 1, [0;0;0;0;0;5;5;5]).
Proof.
  assert (Hf : feasible [5;5;5;0;0;5;5;5] 5 3 0)
    by (apply feasibleb_feasible; reflexivity).
  assert (Hmin : forall s', s' < 0 -> ~ feasible [5;5;5;0;0;5;5;5] 5 3 s')
    by (intros s' Hs' (_ & H0 & _); lia).
  assert (Ht : tight [5;5;5;0;0;5;5;5] 5 3 0).
  { intros j v Hj Hv.
    assert (Hcases : j = 0 \/ j = 1 \/ j = 2) by lia.
    destruct Hcases as [-> | [-> | ->]]; simpl in Hv; congruence. }
  split; [exact Hf|]. split; [exact Hmin|]. split; [exact Ht|].
  exact (proj1 (proj1 (best_fit_task_against_first_fit (new_task 3 5) [5;5;5;0;0;5;5;5])
                  0 Hf Hmin) Ht).
Defined.

(** ** The sort is stable *)

Lemma insert_by_key_filter key k x l :
  filter (fun y => key y = k) (insert_by_key key x l) =
  filter (fun y => key y = k) (x :: l).
Proof.
  induction l as [|y l IH]; simpl; [reflexivity|].
  destruct (Z.leb_spec (key x) (key y)) as [Hle|Hgt]; [reflexivity|].
  rewrite (filter_cons _ y), IH, !(filter_cons _ x), (filter_cons _ y).
  repeat case_decide; try reflexivity; lia.
Qed.

(** X9. The sort before the allocation is stable: for each of the three
    keys, the tasks that share a key value come out in the order they went
    in. *)
Theorem sort_tasks_stable o k tasks :
  filter (fun x => sort_key o x = k) (sort_tasks o tasks) =
  filter (fun x => sort_key o x = k) tasks.
Proof.
  unfold sort_tasks, list_sort.
  induction tasks as [|x l IH]; simpl; [reflexivity|].
  rewrite insert_by_key_filter, !(filter_cons _ x), IH. reflexivity.
Qed.

(** ** The generators *)

Lemma py_round_floor y : Qfloor y <= py_round y <= Qfloor y + 1.
Proof.
  unfold py_round.
  destruct (y - inject_Z (Qfloor y) ?= 1 # 2)%Q; [destruct (Z.even (Qfloor y))| |]; lia.
Qed.

Lemma py_round_nonneg y : (0 <= y)%Q -> 0 <= py_round y.
Proof.
  intros Hy. pose proof (Qfloor_resp_le _ _ Hy) as Hfl.
  change (Qfloor 0) with 0 in Hfl. pose proof (py_round_floor y). lia.
Qed.

Lemma py_positive_spec y : py_positive y = true <-> (0 < y)%Q.
Proof.
  unfold py_positive. rewrite negb_true_iff.
  split.
  - intros Hb. apply Qnot_le_lt. intros Hle.
    apply Qle_bool_iff in Hle. congruence.
  - intros Hlt. destruct (Qle_bool y 0) eqn:Hb; [|reflexivity].
    apply Qle_bool_iff in Hb. destruct (Qlt_not_le _ _ Hlt Hb).
Qed.

Lemma hour_sample_night normal t y k :
  night t -> hour_sample normal t y k = (0%Q, k).
Proof.
  intros Hn. unfold hour_sample.
  destruct (Nat.ltb_spec t 8), (Nat.leb_spec 21 t); simpl; try reflexivity.
  destruct Hn; lia.
Qed.

Lemma day_loop_spec normal : forall hours y k energy_day,
  exists day y' k',
    day_loop normal hours y k energy_day = (energy_day ++ day, y', k') /\
    length day = length hours /\
    Forall (fun v => 0 <= v) day /\
    (forall i t, hours !! i = Some t -> night t -> day !! i = Some 0).
Proof.
  induction hours as [|t hours IH]; intros y k acc; simpl.
  - exists [], y, k. rewrite app_nil_r. repeat split; [constructor|].
    intros i t Hi. rewrite lookup_nil in Hi. discriminate.
  - destruct (hour_sample normal t y k) as [y1 k1] eqn:Hhs.
    destruct (IH y1 k1 (acc ++ [if py_positive y1 then py_round y1 else 0]))
      as (day & y' & k' & -> & Hlen & Hnn & Hnight).
    exists ((if py_positive y1 then py_round y1 else 0) :: day), y', k'.
    split; [rewrite <- app_assoc; reflexivity|].
    split; [simpl; lia|]. split.
    + constructor; [|exact Hnn].
      destruct (py_positive y1) eqn:Hp; [|lia].
      apply py_round_nonneg, Qlt_le_weak, py_positive_spec, Hp.
    + intros [|i] t' Hi Hn; simpl in *.
      * injection Hi as <-. rewrite hour_sample_night in Hhs by exact Hn.
        injection Hhs as <- <-. reflexivity.
      * apply (Hnight i t' Hi Hn).
Qed.

Lemma week_loop_spec normal : forall days y k energy_weekly energy_daily,
  exists new_days k',
    week_loop normal days y k energy_weekly energy_daily =
      (energy_weekly ++ concat new_days, energy_daily ++ new_days, k') /\
    length new_days = length days /\
    Forall (fun day => length day = 24%nat /\ Forall (fun v => 0 <= v) day /\
              forall t, (t < 24)%nat -> night t -> day !! t = Some 0) new_days.
Proof.
  induction days as [|d days IH]; intros y k ew ed; cbn [week_loop].
  - exists [], k. simpl. rewrite !app_nil_r. repeat split. constructor.
  - destruct (day_loop_spec normal (seq 0 24) y k [])
      as (day & y' & k' & Hday & Hlen & Hnn & Hnight).
    rewrite app_nil_l in Hday. rewrite Hday. rewrite length_seq in Hlen.
    destruct (IH y' k' (ew ++ day) (ed ++ [day])) as (nd & k'' & -> & Hlen' & Hall).
    exists (day :: nd), k''. cbn [concat length].
    split; [rewrite <- !app_assoc; reflexivity|].
    split; [lia|].
    constructor; [|exact Hall].
    split; [exact Hlen|]. split; [exact Hnn|].
    intros t Ht Hn. apply (Hnight t t); [|exact Hn].
    apply lookup_seq. lia.
Qed.

Lemma concat_lookup_uniform (n : nat) (days : list (list Z)) :
  Forall (fun day => length day = n) days ->
  forall d t day, days !! d = Some day -> (t < n)%nat ->
    concat days !! (n * d + t)%nat = day !! t.
Proof.
  induction 1 as [|day0 days Hlen Hall IH]; intros d t day Hd Ht.
  - rewrite lookup_nil in Hd. discriminate.
  - destruct d as [|d]; simpl in *.
    + injection Hd as <-. rewrite Nat.mul_0_r. simpl.
      apply lookup_app_l. lia.
    + rewrite lookup_app_r by lia.
      replace (n * S d + t - length day0)%nat with (n * d + t)%nat by lia.
      apply (IH d t day Hd Ht).
Qed.

Lemma concat_length_uniform (n : nat) (days : list (list Z)) :
  Forall (fun day => length day = n) days ->
  length (concat days) = (n * length days)%nat.
Proof.
  induction 1 as [|day0 days Hlen Hall IH]; simpl; [lia|].
  rewrite length_app, IH. lia.
Qed.

(** X10. Whatever the random source returns, [generate_step_function]
    yields seven days of 24 slots each, the weekly profile being the days
    one after the other (168 slots); no slot is negative, and the slots of
    the hours before 8 and from 21 on are 0 on every day. *)
Theorem generate_step_function_profile normal k :
  exists energy_weekly energy_daily k',
    generate_step_function normal k = (energy_weekly, energy_daily, k') /\
    energy_weekly = concat energy_daily /\
    length energy_daily = 7%nat /\
    Forall (fun day => length day = 24%nat) energy_daily /\
    length energy_weekly = 168%nat /\
    Forall (fun v => 0 <= v) energy_weekly /\
    (forall d t, (d < 7)%nat -> (t < 24)%nat -> night t ->
       energy_weekly !! (24 * d + t)%nat = Some 0).
Proof.
  unfold generate_step_function.
  destruct (week_loop_spec normal (seq 0 7) 0%Q k [] []) as (days & k' & -> & Hlen & Hall).
  rewrite length_seq in Hlen. exists (concat days), days, k'. rewrite !app_nil_l.
  assert (Hlens : Forall (fun day => length day = 24%nat) days).
  { eapply Forall_impl; [exact Hall|]. intros day (Hl & _). exact Hl. }
  split; [reflexivity|]. split; [reflexivity|]. split; [exact Hlen|].
  split; [exact Hlens|].
  split; [rewrite (concat_length_uniform 24 days Hlens); lia|]. split.
  - apply Forall_concat. eapply Forall_impl; [exact Hall|].
    intros day (_ & Hnn & _). exact Hnn.
  - intros d t Hd Ht Hn.
    destruct (lookup_lt_is_Some_2 days d) as [day Hday]; [lia|].
    rewrite (concat_lookup_uniform 24 days Hlens d t day Hday Ht).
    pose proof (Forall_lookup_1 _ _ _ _ Hall Hday) as (_ & _ & Hnight).
    apply Hnight; assumption.
Qed.

Lemma py_round_comp x y : (x == y)%Q -> py_round x = py_round y.
Proof.
  intros Hxy. unfold py_round. rewrite <- (Qfloor_comp x y Hxy).
  assert (Hc : (x - inject_Z (Qfloor x) ?= 1 # 2)%Q = (y - inject_Z (Qfloor x) ?= 1 # 2)%Q).
  { apply Qcompare_comp; [|reflexivity].
    unfold Qminus. apply Qplus_comp; [exact Hxy|reflexivity]. }
  rewrite Hc. reflexivity.
Qed.

Lemma py_round_half y : (y == 1 # 2)%Q -> py_round y = 0.
Proof. intros Hy. rewrite (py_round_comp _ _ Hy). reflexivity. Qed.

Lemma py_round_above_half y : (1 # 2 < y)%Q -> 1 <= py_round y.
Proof.
  intros Hy.
  assert (Hfl : 0 <= Qfloor y).
  { change 0 with (Qfloor (1 # 2)). apply Qfloor_resp_le, Qlt_le_weak, Hy. }
  pose proof (py_round_floor y) as Hr.
  destruct (Z.eq_dec (Qfloor y) 0) as [Hz|Hnz]; [|lia].
  unfold py_round. rewrite Hz.
  assert (Hc : (y - inject_Z 0 ?= 1 # 2)%Q = Gt).
  { apply Qgt_alt.
    assert (Hyy : (y - inject_Z 0 == y)%Q) by (unfold Qminus; simpl; ring).
    rewrite Hyy. exact Hy. }
  rewrite Hc. lia.
Qed.

Lemma sample_rounded_some normal fuel : forall k v k',
  sample_rounded normal fuel k = Some (v, k') ->
  (k < k')%nat /\ (1 # 2 <= normal (k' - 1)%nat)%Q /\ v = py_round (normal (k' - 1)%nat).
Proof.
  induction fuel as [|fuel IH]; intros k v k' Hs; simpl in Hs; [discriminate|].
  destruct (Qle_bool (1 # 2) (normal k)) eqn:Hb.
  - injection Hs as <- <-. replace (S k - 1)%nat with k by lia.
    apply Qle_bool_iff in Hb. repeat split; [lia|exact Hb].
  - destruct (IH _ _ _ Hs) as (Hlt & Hge & Hv). repeat split; [lia|exact Hge|exact Hv].
Qed.

Lemma sample_rounded_fuel normal fuel : forall k,
  (exists i, (i < fuel)%nat /\ (1 # 2 <= normal (k + i)%nat)%Q) ->
  exists v k', sample_rounded normal fuel k = Some (v, k').
Proof.
  induction fuel as [|fuel IH]; intros k (i & Hi & Hge); [lia|]. simpl.
  destruct (Qle_bool (1 # 2) (normal k)) eqn:Hb; [eauto|].
  apply IH. destruct i as [|i].
  - rewrite Nat.add_0_r in Hge. apply Qle_bool_iff in Hge. congruence.
  - exists i. split; [lia|]. replace (S k + i)%nat with (k + S i)%nat by lia. exact Hge.
Qed.

Lemma generate_task_some normal fuel : forall n k tasks k',
  generate_task normal fuel n k = Some (tasks, k') ->
  length tasks = n /\ Forall unplaced tasks /\
  Forall (fun x => 0 <= width x /\ 0 <= height x) tasks.
Proof.
  induction n as [|n IH]; intros k tasks k' Hg; simpl in Hg.
  - injection Hg as <- <-. repeat split; constructor.
  - destruct (sample_rounded normal fuel k) as [[w k1]|] eqn:Hw; simpl in Hg; [|discriminate].
    destruct (sample_rounded normal fuel k1) as [[h k2]|] eqn:Hh; simpl in Hg; [|discriminate].
    destruct (generate_task normal fuel n k2) as [[rest k3]|] eqn:Hrest; simpl in Hg;
      [|discriminate].
    injection Hg as <- <-.
    destruct (IH _ _ _ Hrest) as (Hlen & Hun & Hdim).
    destruct (sample_rounded_some _ _ _ _ _ Hw) as (_ & Hwge & ->).
    destruct (sample_rounded_some _ _ _ _ _ Hh) as (_ & Hhge & ->).
    assert (Hpos : forall y, (1 # 2 <= y)%Q -> 0 <= py_round y).
    { intros y Hy. apply py_round_nonneg. apply Qle_trans with (1 # 2)%Q; [|exact Hy].
      unfold Qle. simpl. lia. }
    split; [simpl; lia|]. split.
    + constructor; [split; reflexivity|exact Hun].
    + constructor; [|exact Hdim]. simpl. split; apply Hpos; assumption.
Qed.

(** X11. When the random source never withholds an acceptable sample (one
    of at least 0.5) for [fuel] draws in a row, [generate_task] returns
    [num_tasks] tasks, each with start and end -1 and with a width and a
    height that are not negative. *)
Theorem generate_task_tasks normal fuel n k :
  (forall j, exists i, (i < fuel)%nat /\ (1 # 2 <= normal (j + i)%nat)%Q) ->
  exists tasks k',
    generate_task normal fuel n k = Some (tasks, k') /\
    length tasks = n /\ Forall unplaced tasks /\
    Forall (fun x => 0 <= width x /\ 0 <= height x) tasks.
Proof.
  intros Hsrc.
  assert (Hsome : exists tasks k', generate_task normal fuel n k = Some (tasks, k')).
  { revert k. induction n as [|n IH]; intros k; simpl; [eauto|].
    destruct (sample_rounded_fuel normal fuel k (Hsrc k)) as (w & k1 & ->). simpl.
    destruct (sample_rounded_fuel normal fuel k1 (Hsrc k1)) as (h & k2 & ->). simpl.
    destruct (IH k2) as (rest & k3 & ->). simpl. eauto. }
  destruct Hsome as (tasks & k' & Hg). exists tasks, k'.
  split; [exact Hg|]. apply (generate_task_some _ _ _ _ _ _ Hg).
Qed.

Lemma generate_task_tasks_witness :
  (forall j, exists i, (i < 1)%nat /\ (1 # 2 <= (fun _ => 3 # 2) (j + i)%nat)%Q) /\
  exists tasks k',
    generate_task (fun _ => 3 # 2)%Q 1 2 0 = Some (tasks, k') /\
    length tasks = 2%nat /\ Forall unplaced tasks /\
    Forall (fun x => 0 <= width x /\ 0 <= height x) tasks.
Proof.
  assert (H : forall j, exists i, (i < 1)%nat /\ (1 # 2 <= (fun _ => 3 # 2) (j + i)%nat)%Q).
  { intros j. exists O. split; [lia|]. unfold Qle. simpl. lia. }
  split; [exact H|].
  exact (generate_task_tasks (fun _ => 3 # 2)%Q 1 2 0 H).
Defined.

Lemma sample_rounded_first normal fuel : forall k v k',
  sample_rounded normal fuel k = Some (v, k') ->
  forall j, (k <= j < k' - 1)%nat -> (normal j < 1 # 2)%Q.
Proof.
  induction fuel as [|fuel IH]; intros k v k' Hs j Hj; simpl in Hs; [discriminate|].
  destruct (Qle_bool (1 # 2) (normal k)) eqn:Hb.
  - injection Hs as _ <-. lia.
  - destruct (Nat.eq_dec j k) as [->|Hne].
    + apply Qnot_le_lt. intros Hle. apply Qle_bool_iff in Hle. congruence.
    + apply (IH (S k) v k' Hs j). lia.
Qed.

(** X12. When one of the next [fuel] samples is at least 0.5, a sampling
    loop of [generate_task] ends and returns the rounding of the first such
    sample, having passed over the samples below 0.5 before it: the value is
    0 when that sample is exactly 0.5 (the tie goes to the even integer) and
    at least 1 when the sample is greater, so a generated width or height can
    be 0. *)
Theorem sample_rounded_threshold normal fuel k :
  (exists i, (i < fuel)%nat /\ (1 # 2 <= normal (k + i)%nat)%Q) ->
  exists v k',
    sample_rounded normal fuel k = Some (v, k') /\
    (k < k')%nat /\
    (1 # 2 <= normal (k' - 1)%nat)%Q /\
    v = py_round (normal (k' - 1)%nat) /\
    (forall j, (k <= j < k' - 1)%nat -> (normal j < 1 # 2)%Q) /\
    ((normal (k' - 1)%nat == 1 # 2)%Q -> v = 0) /\
    ((1 # 2 < normal (k' - 1)%nat)%Q -> 1 <= v).
Proof.
  intros Hsrc.
  destruct (sample_rounded_fuel normal fuel k Hsrc) as (v & k' & Hs).
  exists v, k'. split; [exact Hs|].
  destruct (sample_rounded_some _ _ _ _ _ Hs) as (Hlt & Hge & Hv).
  split; [exact Hlt|]. split; [exact Hge|]. split; [exact Hv|]. split; [|split].
  - apply (sample_rounded_first _ _ _ _ _ Hs).
  - intros Heq. rewrite Hv. apply py_round_half, Heq.
  - intros Hgt. rewrite Hv. apply py_round_above_half, Hgt.
Qed.

Lemma sample_rounded_threshold_witness :
  (exists i, (i < 5)%nat /\
     (1 # 2 <= (fun n => if (n <? 2)%nat then 0 else 1 # 2) (0 + i)%nat)%Q) /\
  exists v k',
    sample_rounded (fun n => if (n <? 2)%nat then 0 else 1 # 2)%Q 5 0 = Some (v, k') /\
    (0 < k')%nat.
Proof.
  assert (H : exists i, (i < 5)%nat /\
     (1 # 2 <= (fun n => if (n <? 2)%nat then 0 else 1 # 2) (0 + i)%nat)%Q).
  { exists 2%nat. split; [lia|]. unfold Qle. simpl. lia. }
  split; [exact H|].
  destruct (sample_rounded_threshold (fun n => if (n <? 2)%nat then 0 else 1 # 2)%Q 5 0 H)
    as (v & k' & Hs & Hlt & _).
  exists v, k'. split; [exact Hs|exact Hlt].
Defined.

(** X13. When the random source never withholds a sample of at least 0.5
    for [fuel] draws in a row, a turn of the evaluation loop samples the
    step function and 20 tasks and runs the trial on them, for every sort
    order and heuristic.  When the lesser of the total task area and the
    energy of the step function is positive, the efficacy is a value between
    0 and 1; when the total task area is 0 it is nan; when the step function
    holds no energy and every task has a height of at least 1 and the total
    task area is positive, the division raises ZeroDivisionError. *)
Theorem generated_trial_efficacy normal fuel k o hr :
  (forall j, exists i, (i < fuel)%nat /\ (1 # 2 <= normal (j + i)%nat)%Q) ->
  exists step_function energy_daily k1 tasks k2 r,
    generate_step_function normal k = (step_function, energy_daily, k1) /\
    generate_task normal fuel 20 k1 = Some (tasks, k2) /\
    generated_trial normal fuel k o hr = Some r /\
    (0 < py_min (total_area tasks) (py_sum step_function) ->
     exists q, r = Ok (Finite q) /\ (0 <= q /\ q <= 1)%Q) /\
    (total_area tasks = 0 -> r = Ok NaN) /\
    (py_sum step_function = 0 -> 0 < total_area tasks ->
     Forall (fun x => 1 <= height x) tasks -> r = Raise ZeroDivisionError).
Proof.
  intros Hsrc.
  unfold generated_trial, generate_step_function.
  destruct (week_loop_spec normal (seq 0 7) 0%Q k [] []) as (days & k1 & -> & _ & Hall).
  rewrite !app_nil_l.
  assert (Hnn : Forall (fun v => 0 <= v) (concat days)).
  { apply Forall_concat. eapply Forall_impl; [exact Hall|].
    intros day (_ & Hday & _). exact Hday. }
  assert (Hsome : exists tasks k2, generate_task normal fuel 20 k1 = Some (tasks, k2)).
  { generalize 20%nat. intros n. revert k1. induction n as [|n IH]; intros k1; simpl; [eauto|].
    destruct (sample_rounded_fuel normal fuel k1 (Hsrc k1)) as (w & k2 & ->). simpl.
    destruct (sample_rounded_fuel normal fuel k2 (Hsrc k2)) as (h & k3 & ->). simpl.
    destruct (IH k3) as (rest & k4 & ->). simpl. eauto. }
  destruct Hsome as (tasks & k2 & Htasks).
  destruct (generate_task_some _ _ _ _ _ _ Htasks) as (Hlen & _ & Hdim).
  exists (concat days), days, k1, tasks, k2, (trial o hr (concat days) tasks).
  split; [reflexivity|]. split; [exact Htasks|].
  split; [rewrite Htasks; reflexivity|]. split; [|split].
  - intros Hpos. destruct (trial_bounds o hr _ _ Hdim Hnn Hpos) as (q & Hq & Hrange).
    exists q. split; [exact Hq|exact Hrange].
  - intros Harea. apply trial_no_area; [|exact Hdim|exact Hnn|exact Harea].
    intros ->. discriminate Hlen.
  - intros Hsum Harea Hh. apply trial_dark; assumption.
Qed.

Lemma generated_trial_efficacy_witness :
  (forall j, exists i, (i < 1)%nat /\ (1 # 2 <= (fun _ => 3 # 2) (j + i)%nat)%Q) /\
  exists q,
    generated_trial (fun _ => 3 # 2)%Q 1 0 OrderWidth FirstFit = Some (Ok (Finite q)) /\
    (0 <= q /\ q <= 1)%Q.
Proof.
  assert (H : forall j, exists i, (i < 1)%nat /\ (1 # 2 <= (fun _ => 3 # 2) (j + i)%nat)%Q).
  { intros j. exists O. split; [lia|]. unfold Qle. simpl. lia. }
  split; [exact H|].
  destruct (generated_trial_efficacy (fun _ => 3 # 2)%Q 1 0 OrderWidth FirstFit H)
    as (sf & daily & k1 & tasks & k2 & r & Hgen & Htasks & Htrial & Hq & _).
  vm_compute in Hgen. injection Hgen as <- <- <-.
  vm_compute in Htasks. injection Htasks as <- <-.
  destruct Hq as (q & -> & Hrange); [vm_compute; reflexivity|].
  exists q. split; [exact Htrial|exact Hrange].
Defined.

(** X14. [first_fit] places a task exactly when a feasible window exists in
    the profile at that time: a task as constructed comes back with a start
    if and only if some window of its width has at least its height in every
    slot. *)
Theorem first_fit_places_iff_feasible x sf :
  unplaced x ->
  ((exists s, feasible sf (height x) (width x) s) <->
   (exists x' sf', first_fit_task x sf = Ok (x', sf') /\ start_time x' <> -1)).
Proof.
  intros [Hs He].
  destruct (first_fit_task_cases x sf) as [[Hff Hnone] | (s & Hf & Hmin & Hff)].
  - split.
    + intros [s Hf]. destruct (Hnone s Hf).
    + intros (x' & sf' & Hff' & Hne). rewrite Hff in Hff'.
      injection Hff' as <- <-. contradiction.
  - split.
    + intros _. eexists _, _. split; [exact Hff|].
      destruct (feasible_bounds _ _ _ _ Hf) as (H0 & _). simpl. lia.
    + intros _. exists s. exact Hf.
Qed.

Lemma first_fit_places_iff_feasible_witness :
  unplaced (new_task 3 5) /\
  ((exists s, feasible [5;5;5;0;0;5;5;5] 5 3 s) <->
   (exists x' sf', first_fit_task (new_task 3 5) [5;5;5;0;0;5;5;5] = Ok (x', sf') /\
                   start_time x' <> -1)).
Proof.
  assert (H : unplaced (new_task 3 5)) by (split; reflexivity).
  split; [exact H|].
  exact (first_fit_places_iff_feasible (new_task 3 5) [5;5;5;0;0;5;5;5] H).
Defined.

(** ** The text of the step function *)

Lemma string_forall_app P s1 s2 :
  string_forall P s1 -> string_forall P s2 -> string_forall P (s1 ++ s2)%string.
Proof.
  induction s1 as [|c s1 IH]; simpl; [auto|].
  intros [Hc Hs1] Hs2. split; [exact Hc|apply IH; assumption].
Qed.

Lemma string_forall_impl (P R : ascii -> Prop) s :
  (forall c, P c -> R c) -> string_forall P s -> string_forall R s.
Proof.
  intros HPR. induction s as [|c s IH]; simpl; [auto|].
  intros [Hc Hs]. split; [apply HPR, Hc|apply IH, Hs].
Qed.

Lemma string_app_assoc (s1 s2 s3 : string) :
  ((s1 ++ s2) ++ s3 = s1 ++ (s2 ++ s3))%string.
Proof. induction s1 as [|c s1 IH]; simpl; [reflexivity|]. rewrite IH. reflexivity. Qed.

Lemma string_app_empty (s : string) : (s ++ EmptyString)%string = s.
Proof. induction s as [|c s IH]; simpl; [reflexivity|]. rewrite IH. reflexivity. Qed.

Lemma uint_chars d : string_forall number_char (NilEmpty.string_of_uint d).
Proof. induction d; simpl; try split; try reflexivity; assumption. Qed.

Lemma py_str_int_chars n : string_forall number_char (py_str_int n).
Proof.
  assert (Huint : forall d, string_forall number_char (NilZero.string_of_uint d)).
  { intros d. destruct d; try apply uint_chars. simpl. split; [reflexivity|exact I]. }
  unfold py_str_int. destruct (Z.to_int n) as [d|d]; simpl.
  - apply Huint.
  - split; [reflexivity|apply Huint].
Qed.

Lemma prefix_empty s : String.prefix EmptyString s = true.
Proof. destruct s; reflexivity. Qed.

Lemma replace_other_char o old' new c s :
  o <> c ->
  replace_from (String o old') new 0 (String c s) =
  String c (replace_from (String o old') new 0 s).
Proof.
  intros Hne. simpl. destruct (ascii_dec o c) as [Heq|_]; [contradiction|reflexivity].
Qed.

Lemma replace_other_chars o old' new d : forall s,
  string_forall (fun c => o <> c) d ->
  replace_from (String o old') new 0 (d ++ s) =
  (d ++ replace_from (String o old') new 0 s)%string.
Proof.
  induction d as [|c d IH]; intros s Hd; [reflexivity|].
  destruct Hd as [Hc Hd].
  change (String c d ++ s)%string with (String c (d ++ s)).
  rewrite replace_other_char by exact Hc. rewrite IH by exact Hd. reflexivity.
Qed.

Lemma replace_separator s :
  replace_from ", " newline 0 (", " ++ s) =
  (newline ++ replace_from ", " newline 0 s)%string.
Proof. simpl. rewrite prefix_empty. reflexivity. Qed.

Lemma replace_separators ds : forall tail,
  Forall (string_forall number_char) ds ->
  replace_from ", " newline 0 (String.concat ", " ds ++ tail) =
  (String.concat newline ds ++ replace_from ", " newline 0 tail)%string.
Proof.
  assert (Hnum : forall d, string_forall number_char d ->
                           string_forall (fun c => ","%char <> c) d).
  { intros d. apply string_forall_impl. intros c Hc <-. cbv in Hc. discriminate Hc. }
  induction ds as [|d ds IH]; intros tail Hds; [reflexivity|].
  apply Forall_cons in Hds as [Hd Hds].
  destruct ds as [|d' ds].
  - simpl. apply replace_other_chars, Hnum, Hd.
  - change (String.concat ", " (d :: d' :: ds))
      with (d ++ ", " ++ String.concat ", " (d' :: ds))%string.
    change (String.concat newline (d :: d' :: ds))
      with (d ++ newline ++ String.concat newline (d' :: ds))%string.
    rewrite !string_app_assoc.
    rewrite replace_other_chars by (apply Hnum, Hd).
    rewrite replace_separator, (IH tail Hds). reflexivity.
Qed.

Lemma lines_chars ds :
  Forall (string_forall number_char) ds ->
  string_forall (fun c => "["%char <> c /\ "]"%char <> c) (String.concat newline ds).
Proof.
  assert (Hnum : forall d, string_forall number_char d ->
             string_forall (fun c => "["%char <> c /\ "]"%char <> c) d).
  { intros d. apply string_forall_impl.
    intros c Hc. split; intros <-; cbv in Hc; discriminate Hc. }
  induction ds as [|d ds IH]; intros Hds; [exact I|].
  apply Forall_cons in Hds as [Hd Hds].
  destruct ds as [|d' ds]; [apply Hnum, Hd|].
  change (String.concat newline (d :: d' :: ds))
    with (d ++ newline ++ String.concat newline (d' :: ds))%string.
  apply string_forall_app; [apply Hnum, Hd|].
  apply string_forall_app; [|apply IH, Hds].
  simpl. repeat split; discriminate.
Qed.

(** X15. The text written for a step function of ints is its values in
    decimal, one per line: line feeds between them, no brackets, no commas,
    no line feed after the last value. *)
Theorem step_function_text_lines energy_weekly :
  step_function_text energy_weekly =
  String.concat newline (py_str_int <$> energy_weekly).
Proof.
  unfold step_function_text, py_str_list, py_replace.
  set (ds := py_str_int <$> energy_weekly).
  assert (Hds : Forall (string_forall number_char) ds).
  { unfold ds. apply Forall_fmap, Forall_forall. intros n _. apply py_str_int_chars. }
  pose proof (lines_chars ds Hds) as Hb.
  change ("[" ++ String.concat ", " ds ++ "]")%string
    with (String "[" (String.concat ", " ds ++ "]")).
  rewrite replace_other_char by discriminate.
  rewrite replace_separators by exact Hds.
  change (replace_from ", " newline 0 "]") with "]"%string.
  assert (Hopen : replace_from "[" EmptyString 0
                    (String "[" (String.concat newline ds ++ "]")) =
                  (String.concat newline ds ++ "]")%string).
  { cbn [replace_from String.prefix String.length Nat.sub].
    destruct (ascii_dec "[" "[") as [_|Hne]; [|destruct Hne; reflexivity].
    rewrite prefix_empty. cbn [String.append].
    rewrite replace_other_chars.
    - reflexivity.
    - eapply string_forall_impl; [|exact Hb]. intros c [Hc _]. exact Hc. }
  rewrite Hopen.
  rewrite replace_other_chars.
  - change (replace_from "]" EmptyString 0 "]") with EmptyString.
    apply string_app_empty.
  - eapply string_forall_impl; [|exact Hb]. intros c [_ Hc]. exact Hc.
Qed.

(** ** The profile never grows *)

Lemma run_steps_decreasing tasks sf tasks' sf' :
  run_steps tasks sf tasks' sf' ->
  Forall (fun x => 0 <= height x) tasks ->
  forall (j : nat) v, sf !! j = Some v -> exists v', sf' !! j = Some v' /\ v' <= v.
Proof.
  induction 1 as [sf | x rest sf x' sf' rest' sf'' Hstep Hrun IH]; intros Hh j v Hv.
  - exists v. split; [exact Hv|lia].
  - apply Forall_cons in Hh as [Hx Hrest].
    destruct Hstep as [(_ & -> & _) | (s & start & _ & _ & _ & ->)].
    + apply (IH Hrest j v Hv).
    + destruct (IH Hrest j _ ltac:(rewrite dec_window_lookup, Hv; reflexivity))
        as (v' & Hv' & Hle).
      exists v'. split; [exact Hv'|].
      destruct ((s <=? Z.of_nat j) && (Z.of_nat j <=? s + width x - 1)); lia.
Qed.

(** X16. When no task has a negative height, no heuristic raises a slot of
    the profile: every slot ends at most as high as it started. *)
Theorem allocation_never_adds_capacity hr tasks sf :
  Forall (fun x => 0 <= height x) tasks ->
  exists tasks' sf',
    allocate hr tasks sf = Ok (tasks', sf') /\
    forall (j : nat) v, sf !! j = Some v -> exists v', sf' !! j = Some v' /\ v' <= v.
Proof.
  intros Hh.
  destruct (allocate_run hr tasks sf) as (tasks' & sf' & Halloc & Hrun).
  exists tasks', sf'. split; [exact Halloc|].
  apply (run_steps_decreasing _ _ _ _ Hrun Hh).
Qed.

Lemma allocation_never_adds_capacity_witness :
  Forall (fun x => 0 <= height x) [new_task 3 5; new_task 2 4] /\
  exists tasks' sf',
    allocate BestFit [new_task 3 5; new_task 2 4] [5;5;5;0;0;5;5;5] = Ok (tasks', sf') /\
    forall (j : nat) v, [5;5;5;0;0;5;5;5] !! j = Some v ->
      exists v', sf' !! j = Some v' /\ v' <= v.
Proof.
  assert (H : Forall (fun x => 0 <= height x) [new_task 3 5; new_task 2 4])
    by (repeat constructor; simpl; lia).
  split; [exact H|].
  exact (allocation_never_adds_capacity BestFit
           [new_task 3 5; new_task 2 4] [5;5;5;0;0;5;5;5] H).
Defined.

Lemma generate_step_function_profile_witness :
  (0 < 7)%nat /\ (3 < 24)%nat /\ night 3 /\
  exists energy_weekly energy_daily k',
    generate_step_function (fun _ => 3 # 2)%Q 0 = (energy_weekly, energy_daily, k') /\
    energy_weekly !! (24 * 0 + 3)%nat = Some 0.
Proof.
  assert (H1 : (0 < 7)%nat) by lia.
  assert (H2 : (3 < 24)%nat) by lia.
  assert (H3 : night 3) by (left; lia).
  split; [exact H1|]. split; [exact H2|]. split; [exact H3|].
  destruct (generate_step_function_profile (fun _ => 3 # 2)%Q 0)
    as (weekly & daily & k' & Hgen & _ & _ & _ & _ & _ & Hnight).
  exists weekly, daily, k'. split; [exact Hgen|].
  exact (Hnight 0%nat 3%nat H1 H2 H3).
Defined.
